(** * Mission Control front end: optimistic deletes, kanban grouping,
      triage buckets and the live feed merge

    A shallow embedding of the client-side logic of the dashboard:
    - [frontend/src/app/boards/page.tsx] and
      [frontend/src/app/board-groups/page.tsx]: the delete mutation with
      its optimistic cache patch, rollback and invalidation;
    - [frontend/src/app/kanban/page.tsx]: grouping of tasks by status;
    - the task board and the activity feed, whose components are not part
      of the sources at hand and are modelled from the specification. *)

From Stdlib Require Import ZArith Lia DecimalString DecimalZ Sorted.
From stdpp Require Import base decidable option list strings gmap.

Local Open Scope Z_scope.

(** ** Generated API types

    The response types come from the generated client
    ([@/api/generated/...]), which is not among the sources; the shapes
    below are the ones the pages rely on: a discriminated union on
    [status], whose 200 variant carries a limit/offset page. *)
Module Api.

Definition Headers := list (string * string).

Record HTTPValidationError := { detail : list string }.

Record LimitOffsetPage (Item : Type) := {
  items : list Item;
  total : Z;
  limit : Z;
  offset : Z
}.
Arguments items {Item} _.
Arguments total {Item} _.
Arguments limit {Item} _.
Arguments offset {Item} _.

Inductive ListResponse (Item : Type) :=
| Response200 (data : LimitOffsetPage Item) (headers : Headers)
| Response422 (data : HTTPValidationError) (headers : Headers).
Arguments Response200 {Item} _ _.
Arguments Response422 {Item} _ _.

Definition status {Item} (r : ListResponse Item) : Z :=
  match r with
  | Response200 _ _ => 200
  | Response422 _ _ => 422
  end.

(** The fields of [BoardRead] and [BoardGroupRead] the two pages read. *)
Record BoardRead := {
  board_id : string;
  board_name : string;
  board_group_id : option string;
  board_updated_at : string
}.

Record BoardGroupRead := {
  group_id : string;
  group_name : string;
  group_description : option string;
  group_updated_at : string
}.

End Api.

(** ** The query client

    [useQueryClient()] hands the pages the process-wide cache of the query
    library.  The handlers use four of its methods. *)
Module QueryCache.
Import Api.

(** A query key is the array the generated [get...QueryKey()] returns. *)
Definition QueryKey := list string.

Section Client.
Context {Item : Type}.

(** Modelled from the spec: the query library is a third-party
    dependency; section 4.1 gives its contract.  [cache] is the keyed
    store, [fetching] the keys with a read in flight, [stale] the keys
    marked for revalidation and [observers] the keys with a mounted
    subscriber. *)
Record QueryClient := {
  cache : gmap QueryKey (ListResponse Item);
  fetching : gset QueryKey;
  stale : gset QueryKey;
  observers : gset QueryKey
}.

(** Modelled from the spec: [cancelInFlight(key)] aborts an outstanding
    fetch for that key. *)
Definition cancelQueries (k : QueryKey) (qc : QueryClient) : QueryClient :=
  {| cache := cache qc;
     fetching := fetching qc ∖ {[k]};
     stale := stale qc;
     observers := observers qc |}.

(** Modelled from the spec: [get(key)]; a missing key is [undefined]. *)
Definition getQueryData (k : QueryKey) (qc : QueryClient)
  : option (ListResponse Item) :=
  cache qc !! k.

(** Modelled from the spec: [set(key, entry)]. *)
Definition setQueryData (k : QueryKey) (v : ListResponse Item)
    (qc : QueryClient) : QueryClient :=
  {| cache := <[k := v]> (cache qc);
     fetching := fetching qc;
     stale := stale qc;
     observers := observers qc |}.

(** Modelled from the spec: [invalidate(key)] marks the entry stale and
    schedules a re-fetch if it is observed by an active subscriber. *)
Definition invalidateQueries (k : QueryKey) (qc : QueryClient)
  : QueryClient :=
  {| cache := cache qc;
     fetching := if decide (k ∈ observers qc)
                 then fetching qc ∪ {[k]} else fetching qc;
     stale := stale qc ∪ {[k]};
     observers := observers qc |}.

(** Modelled from the spec: the response of a read arrives.  A read that
    was cancelled has its eventual response ignored (section 5). *)
Definition resolveFetch (k : QueryKey) (v : ListResponse Item)
    (qc : QueryClient) : QueryClient :=
  if decide (k ∈ fetching qc) then
    {| cache := <[k := v]> (cache qc);
       fetching := fetching qc ∖ {[k]};
       stale := stale qc ∖ {[k]};
       observers := observers qc |}
  else qc.

(** What a page holds besides the client: the row chosen for deletion
    ([useState<... | null>(null)]). *)
Record Page := {
  client : QueryClient;
  deleteTarget : option Item
}.

(** The calls a handler makes, in the order it makes them. *)
Inductive Call :=
| CallCancelQueries (k : QueryKey)
| CallGetQueryData (k : QueryKey)
| CallSetQueryData (k : QueryKey) (v : ListResponse Item)
| CallInvalidateQueries (k : QueryKey)
| CallSetDeleteTarget (t : option Item).

(** Handlers are written as command trees over these calls. *)
Inductive Prog (A : Type) : Type :=
| Ret (a : A)
| CancelQueries (k : QueryKey) (next : Prog A)
| GetQueryData (k : QueryKey) (next : option (ListResponse Item) → Prog A)
| SetQueryData (k : QueryKey) (v : ListResponse Item) (next : Prog A)
| InvalidateQueries (k : QueryKey) (next : Prog A)
| SetDeleteTarget (t : option Item) (next : Prog A).
Arguments Ret {A} _.
Arguments CancelQueries {A} _ _.
Arguments GetQueryData {A} _ _.
Arguments SetQueryData {A} _ _ _.
Arguments InvalidateQueries {A} _ _.
Arguments SetDeleteTarget {A} _ _.

Fixpoint bind {A B} (p : Prog A) (f : A → Prog B) : Prog B :=
  match p with
  | Ret a => f a
  | CancelQueries k next => CancelQueries k (bind next f)
  | GetQueryData k next => GetQueryData k (λ r, bind (next r) f)
  | SetQueryData k v next => SetQueryData k v (bind next f)
  | InvalidateQueries k next => InvalidateQueries k (bind next f)
  | SetDeleteTarget t next => SetDeleteTarget t (bind next f)
  end.

Definition on_client (f : QueryClient → QueryClient) (p : Page) : Page :=
  {| client := f (client p); deleteTarget := deleteTarget p |}.

(** Running a handler: the value it returns, the page it leaves and the
    calls it made. *)
Fixpoint exec {A} (p : Prog A) (s : Page) : A * Page * list Call :=
  match p with
  | Ret a => (a, s, [])
  | CancelQueries k next =>
      let '(a, s', tr) := exec next (on_client (cancelQueries k) s) in
      (a, s', CallCancelQueries k :: tr)
  | GetQueryData k next =>
      let '(a, s', tr) := exec (next (getQueryData k (client s))) s in
      (a, s', CallGetQueryData k :: tr)
  | SetQueryData k v next =>
      let '(a, s', tr) := exec next (on_client (setQueryData k v) s) in
      (a, s', CallSetQueryData k v :: tr)
  | InvalidateQueries k next =>
      let '(a, s', tr) := exec next (on_client (invalidateQueries k) s) in
      (a, s', CallInvalidateQueries k :: tr)
  | SetDeleteTarget t next =>
      let '(a, s', tr) :=
        exec next {| client := client s; deleteTarget := t |} in
      (a, s', CallSetDeleteTarget t :: tr)
  end.

Definition result {A} (p : Prog A) (s : Page) : A := (exec p s).1.1.
Definition run {A} (p : Prog A) (s : Page) : Page := (exec p s).1.2.
Definition calls {A} (p : Prog A) (s : Page) : list Call := (exec p s).2.

Definition is_write (c : Call) : bool :=
  match c with
  | CallSetQueryData _ _ => true
  | _ => false
  end.

End Client.

Arguments QueryClient : clear implicits.
Arguments Page : clear implicits.
Arguments Call : clear implicits.
Arguments Prog : clear implicits.
Arguments Ret {Item A} _.
Arguments CancelQueries {Item A} _ _.
Arguments GetQueryData {Item A} _ _.
Arguments SetQueryData {Item A} _ _ _.
Arguments InvalidateQueries {Item A} _ _.
Arguments SetDeleteTarget {Item A} _ _.

#[global] Instance prog_ret {Item} : MRet (Prog Item) := λ A a, Ret a.
#[global] Instance prog_bind {Item} : MBind (Prog Item) :=
  λ A B f p, bind p f.

End QueryCache.

(** ** The delete mutation of the boards and board-groups pages

    Both pages configure the generated delete hook with the same four
    callbacks; they differ in the item type, its id and the list key. *)
Module DeleteMutation.
Import Api QueryCache.

Section Handlers.
Context {Item : Type}.
Variable item_id : Item → string.
Variable listKey : QueryKey.

(** [{ previous?: list...Response }] *)
Record MutationContext := { previous : option (ListResponse Item) }.

(** [previous.data.items.filter((x) => x.id !== id)] *)
Definition nextItemsOf (deletedId : string) (l : list Item) : list Item :=
  filter (λ it, item_id it ≠ deletedId) l.

(** The object literal handed to [setQueryData]: [...previous] and
    [...previous.data] keep the other fields. *)
Definition patched (deletedId : string) (data : LimitOffsetPage Item)
    (headers : Headers) : ListResponse Item :=
  let nextItems := nextItemsOf deletedId (items data) in
  let removedCount :=
    Z.of_nat (length (items data)) - Z.of_nat (length nextItems) in
  Response200
    {| items := nextItems;
       total := Z.max 0 (total data - removedCount);
       limit := limit data;
       offset := offset data |}
    headers.

(** [onMutate]: [await queryClient.cancelQueries({ queryKey })], then
    [const previous = queryClient.getQueryData(key)], then, under
    [if (previous && previous.status === 200)], the [setQueryData] of the
    patched response, and [return { previous }] in every case. *)
Definition onMutate (deletedId : string) : Prog Item MutationContext :=
  CancelQueries listKey (Ret tt) ;;
  previous ← GetQueryData listKey Ret ;
  match previous with
  | Some (Response200 data headers) =>
      SetQueryData listKey (patched deletedId data headers) (Ret tt)
  | _ => Ret tt
  end ;;
  Ret {| previous := previous |}.

(** [onError]: [if (context?.previous) queryClient.setQueryData(key,
    context.previous)]; [context] is [undefined] when [onMutate] did not
    return. *)
Definition onError (context : option MutationContext) : Prog Item unit :=
  match context with
  | Some {| previous := Some prev |} => SetQueryData listKey prev (Ret tt)
  | _ => Ret tt
  end.

(** [onSuccess]: [setDeleteTarget(null)] *)
Definition onSuccess : Prog Item unit := SetDeleteTarget None (Ret tt).

(** [onSettled]: [queryClient.invalidateQueries({ queryKey })] *)
Definition onSettled : Prog Item unit := InvalidateQueries listKey (Ret tt).

(** *** The mutation hook

    Modelled from the spec: the hook that drives the callbacks belongs
    to the query library.  Section 3 gives the life cycle of a pending
    mutation: created at submit time with the patch applied, then
    committed on success or rolled back on failure; the library calls
    [onSettled] after either. *)
Record PendingMutation := {
  variables : string;
  context : MutationContext
}.

Record Session := {
  page : Page Item;
  outstanding : list PendingMutation
}.

(** [deleteMutation.mutate({ id })] *)
Definition mutate (deletedId : string) (s : Session) : Session :=
  let '(ctx, p, _) := exec (onMutate deletedId) (page s) in
  {| page := p;
     outstanding :=
       outstanding s ++ [{| variables := deletedId; context := ctx |}] |}.

Inductive Outcome := Succeeded | Failed.

Definition settle (o : Outcome) (ctx : MutationContext) : Prog Item unit :=
  match o with
  | Succeeded => onSuccess ;; onSettled
  | Failed => onError (Some ctx) ;; onSettled
  end.

(** The remote call of the oldest outstanding mutation returns. *)
Definition mutationResolved (o : Outcome) (s : Session) : Session :=
  match outstanding s with
  | [] => s
  | m :: rest =>
      {| page := run (settle o (context m)) (page s); outstanding := rest |}
  end.

(** [deleteMutation.isPending] *)
Definition isPending (s : Session) : bool :=
  match outstanding s with
  | [] => false
  | _ :: _ => true
  end.

(** [if (!deleteTarget) return; deleteMutation.mutate({ id: deleteTarget.id })] *)
Definition handleDelete (s : Session) : Session :=
  match deleteTarget (page s) with
  | None => s
  | Some target => mutate (item_id target) s
  end.

(** [<Button onClick={handleDelete} disabled={deleteMutation.isPending}>] *)
Definition clickDelete (s : Session) : Session :=
  if isPending s then s else handleDelete s.

End Handlers.

Arguments MutationContext : clear implicits.
Arguments PendingMutation : clear implicits.
Arguments Session : clear implicits.

End DeleteMutation.

(** [frontend/src/app/boards/page.tsx] *)
Module BoardsPage.
Import Api QueryCache.

(** [getListBoardsApiV1BoardsGetQueryKey()] *)
Definition boardsKey : QueryKey := ["/api/v1/boards"%string].

Definition onMutate := DeleteMutation.onMutate board_id boardsKey.
Definition onError := DeleteMutation.onError (Item := BoardRead) boardsKey.
Definition onSuccess := DeleteMutation.onSuccess (Item := BoardRead).
Definition onSettled := DeleteMutation.onSettled (Item := BoardRead) boardsKey.
Definition handleDelete := DeleteMutation.handleDelete board_id boardsKey.
Definition clickDelete := DeleteMutation.clickDelete board_id boardsKey.
Definition mutationResolved :=
  DeleteMutation.mutationResolved (Item := BoardRead) boardsKey.

End BoardsPage.

(** [frontend/src/app/board-groups/page.tsx] *)
Module BoardGroupsPage.
Import Api QueryCache.

(** [getListBoardGroupsApiV1BoardGroupsGetQueryKey()] *)
Definition groupsKey : QueryKey := ["/api/v1/board-groups"%string].

Definition onMutate := DeleteMutation.onMutate group_id groupsKey.
Definition onError := DeleteMutation.onError (Item := BoardGroupRead) groupsKey.
Definition onSuccess := DeleteMutation.onSuccess (Item := BoardGroupRead).
Definition onSettled :=
  DeleteMutation.onSettled (Item := BoardGroupRead) groupsKey.
Definition handleDelete := DeleteMutation.handleDelete group_id groupsKey.
Definition clickDelete := DeleteMutation.clickDelete group_id groupsKey.
Definition mutationResolved :=
  DeleteMutation.mutationResolved (Item := BoardGroupRead) groupsKey.

End BoardGroupsPage.

(** ** [frontend/src/app/kanban/page.tsx]: tasks grouped by status *)
Module KanbanPage.

(** The fields of the generated task type the page reads. *)
Record Task := {
  id : option Z;
  title : string;
  description : option string;
  status : option string;
  project_id : option Z;
  assignee_employee_id : option Z
}.

#[global] Instance Task_eq_dec : EqDecision Task.
Proof. solve_decision. Defined.

Definition STATUSES : list string :=
  ["backlog"; "ready"; "in_progress"; "review"; "blocked"; "done"]%string.

(** [String(n)] for an integer [n] *)
Definition String_of_Z (n : Z) : string := NilZero.string_of_int (Z.to_int n).

Section Grouping.
(** [a.localeCompare(b)]: negative, zero or positive; it depends on the
    host's locale and is left open. *)
Variable localeCompare : string → string → Z.

(** [(a, b) => String(a.id ?? 0).localeCompare(String(b.id ?? 0))] *)
Definition compareFn (a b : Task) : Z :=
  localeCompare (String_of_Z (default 0 (id a)))
                (String_of_Z (default 0 (id b))).

(** [arr.sort(compareFn)] is stable: an element goes after the elements
    that do not compare greater than it. *)
Fixpoint insert_sorted (x : Task) (l : list Task) : list Task :=
  match l with
  | [] => [x]
  | y :: l' =>
      if 0 <? compareFn y x then x :: y :: l'
      else y :: insert_sorted x l'
  end.

Definition sort (l : list Task) : list Task :=
  foldl (λ acc x, insert_sorted x acc) [] l.

(** [for (const s of STATUSES) map.set(s, [])] *)
Definition emptyColumns : gmap string (list Task) :=
  foldl (λ m s, <[s := []]> m) ∅ STATUSES.

(** [const s = t.status ?? "backlog";
     (map.get(s) ?? map.get("backlog"))?.push(t)] *)
Definition place (m : gmap string (list Task)) (t : Task)
  : gmap string (list Task) :=
  let s := default "backlog"%string (status t) in
  match m !! s with
  | Some arr => <[s := arr ++ [t]]> m
  | None =>
      match m !! "backlog"%string with
      | Some arr => <["backlog"%string := arr ++ [t]]> m
      | None => m
      end
  end.

(** [const arr = map.get(s) ?? []; arr.sort(...)] *)
Definition sortColumn (m : gmap string (list Task)) (s : string)
  : gmap string (list Task) :=
  match m !! s with
  | Some arr => <[s := sort arr]> m
  | None => m
  end.

Definition tasksByStatus (filtered : list Task) : gmap string (list Task) :=
  let map := foldl place emptyColumns filtered in
  foldl sortColumn map STATUSES.

(** [tasksByStatus.get(status) ?? []], as the columns are rendered *)
Definition column (filtered : list Task) (s : string) : list Task :=
  default [] (tasksByStatus filtered !! s).

End Grouping.

(** The invariant of the loop over the tasks: the map has a column for
    each status and no other. *)
Definition columns_ok (m : gmap string (list Task)) : Prop :=
  ∀ c, is_Some (m !! c) ↔ c ∈ STATUSES.

(** The column a task is shown in. *)
Definition columnOf (t : Task) : string :=
  let s := default "backlog"%string (status t) in
  if decide (s ∈ STATUSES) then s else "backlog"%string.

End KanbanPage.

(** ** The task board (classification and drop transitions)

    [TaskBoard.tsx] is not among the sources; only its test
    [TaskBoard.test.tsx] is.  The definitions of this module follow
    section 4.4 of the specification and the task shape of the test. *)
Module TaskBoard.

(** The [Task] type of [TaskBoard.test.tsx]; the pending approvals are a
    count. *)
Record Task := {
  id : string;
  title : string;
  status : string;
  priority : string;
  approvals_pending_count : option nat;
  blocked_by_task_ids : option (list string);
  is_blocked : option bool
}.

#[global] Instance Task_eq_dec : EqDecision Task.
Proof. solve_decision. Defined.

Inductive Column := Inbox | InProgress | Review | Done.

#[global] Instance Column_eq_dec : EqDecision Column.
Proof. solve_decision. Defined.

Definition columns : list Column := [Inbox; InProgress; Review; Done].

(** Modelled from the spec: [TaskBoard.tsx] is missing.  Each task maps to
    one of the four columns by its status alone; an unrecognized status
    falls back to inbox. *)
Definition columnOfStatus (s : string) : Column :=
  if decide (s = "in_progress"%string) then InProgress
  else if decide (s = "review"%string) then Review
  else if decide (s = "done"%string) then Done
  else Inbox.

Definition columnOf (t : Task) : Column := columnOfStatus (status t).

Definition byColumn (tasks : list Task) (c : Column) : list Task :=
  filter (λ t, columnOf t = c) tasks.

Inductive Bucket := Blocked | ApprovalNeeded | LeadReview.

#[global] Instance Bucket_eq_dec : EqDecision Bucket.
Proof. solve_decision. Defined.

Definition blocked (t : Task) : bool := default false (is_blocked t).
Definition approvals (t : Task) : nat := default 0%nat (approvals_pending_count t).

(** Modelled from the spec: [TaskBoard.tsx] is missing.  The ordered rule
    list of section 4.4 (and of the design notes): blocked, then approval
    needed, then lead review. *)
Definition rules : list ((Task → bool) * Bucket) :=
  [ (blocked, Blocked);
    (λ t, bool_decide (0 < approvals t)%nat, ApprovalNeeded);
    (λ t, bool_decide (status t = "review"%string)
          && negb (blocked t) && bool_decide (approvals t = 0%nat),
     LeadReview) ].

Fixpoint firstMatch (rs : list ((Task → bool) * Bucket)) (t : Task)
  : option Bucket :=
  match rs with
  | [] => None
  | (cond, b) :: rs' => if cond t then Some b else firstMatch rs' t
  end.

(** Modelled from the spec: [TaskBoard.tsx] is missing.  A task is
    classified into the first matching bucket. *)
Definition classify (t : Task) : option Bucket := firstMatch rules t.

(** The filter buttons of the review column. *)
Inductive Filter := All | Only (b : Bucket).

(** Modelled from the spec: [TaskBoard.tsx] is missing.  The tasks the
    review column shows under a filter; [All] is not a classification
    outcome. *)
Definition reviewTasks (f : Filter) (tasks : list Task) : list Task :=
  match f with
  | All => byColumn tasks Review
  | Only b => filter (λ t, classify t = Some b) (byColumn tasks Review)
  end.

(** The payload of a drop: [{ taskId, status }]. *)
Record DropEvent := { taskId : string; sourceStatus : string }.

(** A mutation request: the task and the fields it changes. *)
Record TaskMutation := {
  target : string;
  changes : list (string * string)
}.

(** Modelled from the spec: [TaskBoard.tsx] is missing.  A drop on the
    column of status [destination]: nothing when the task is already
    there, else one status change. *)
Definition onDrop (ev : DropEvent) (destination : string) : list TaskMutation :=
  if decide (sourceStatus ev = destination) then []
  else [{| target := taskId ev;
           changes := [("status"%string, destination)] |}].

End TaskBoard.

(** ** The live feed merge

    The activity page and its stream consumer are not among the sources
    (only [cypress/e2e/activity_feed.cy.ts] is).  The merge follows
    section 4.3 of the specification. *)
Module ActivityStream.

(** An item of the feed, as the end-to-end test stubs it; [created_at] is
    kept as a point in time. *)
Record Item := {
  id : string;
  created_at : Z;
  message : string
}.

#[global] Instance Item_eq_dec : EqDecision Item.
Proof. solve_decision. Defined.

(** The part of a populated query entry the merge touches. *)
Record QueryEntry := {
  data : list Item;
  total : Z
}.

Definition hasId (i : string) (l : list Item) : bool :=
  bool_decide (i ∈ id <$> l).

(** Modelled from the spec: the stream consumer is missing.  Replace in
    place the item that has the id of the event. *)
Fixpoint replaceById (ev : Item) (l : list Item) : list Item :=
  match l with
  | [] => []
  | x :: l' =>
      if decide (id x = id ev) then ev :: l' else x :: replaceById ev l'
  end.

(** Modelled from the spec: the stream consumer is missing.  Newest first;
    on equal [created_at] the later arrival goes first. *)
Fixpoint insertByCreatedAt (ev : Item) (l : list Item) : list Item :=
  match l with
  | [] => [ev]
  | x :: l' =>
      if created_at ev <? created_at x then x :: insertByCreatedAt ev l'
      else ev :: x :: l'
  end.

(** Modelled from the spec: the stream consumer is missing.  The merge rule
    of section 4.3: an update replaces, a new item is inserted and counted. *)
Definition merge (ev : Item) (q : QueryEntry) : QueryEntry :=
  if hasId (id ev) (data q) then
    {| data := replaceById ev (data q); total := total q |}
  else
    {| data := insertByCreatedAt ev (data q); total := total q + 1 |}.

End ActivityStream.


(** ** What the boards and board-groups pages show

    The rest of [frontend/src/app/boards/page.tsx] and
    [frontend/src/app/board-groups/page.tsx]: the rows of the table, the
    group cell of a board, and the delete dialog. *)
Module BoardsView.
Import Api QueryCache DeleteMutation.

(** [const compactId = (value) => value.length > 8 ? `${value.slice(0, 8)}…`
    : value]; ids are ASCII, one character per code unit. *)
Definition ellipsis : string := "…".

Definition compactId (value : string) : string :=
  if (8 <? String.length value)%nat
  then String.substring 0 8 value +:+ ellipsis
  else value.

(** [query.data?.status === 200 ? (query.data.data.items ?? []) : []]:
    the rows of the table ([boards], and [groups] on the groups page). *)
Definition listed {Item} (key : QueryKey) (qc : QueryClient Item) : list Item :=
  match cache qc !! key with
  | Some (Response200 d _) => items d
  | _ => []
  end.

(** [const map = new Map(); for (const group of groups) map.set(group.id,
    group)] *)
Definition groupById (groups : list BoardGroupRead) : gmap string BoardGroupRead :=
  foldl (λ m g, <[group_id g := g]> m) ∅ groups.

(** The cell of the Group column: a dash, or a link with its [href],
    [title] and label. *)
Inductive GroupCell :=
| NoGroup
| GroupLink (href title label : string).

(** [if (!groupId) return dash; const group = groupById.get(groupId);
    label = group?.name ?? compactId(groupId); title = group?.name ??
    groupId] *)
Definition groupCell (byId : gmap string BoardGroupRead) (b : BoardRead)
  : GroupCell :=
  match board_group_id b with
  | None => NoGroup
  | Some groupId =>
      if decide (groupId = ""%string) then NoGroup
      else
        let group := byId !! groupId in
        GroupLink ("/board-groups/" +:+ groupId)
                  (default groupId (group_name <$> group))
                  (default (compactId groupId) (group_name <$> group))
  end.

Section Dialog.
Context {Item : Type}.
Variable item_id : Item → string.
Variable listKey : QueryKey.

(** What the user and the network can do to a page: press Delete on a row
    ([setDeleteTarget(row.original)]), close the dialog
    ([setDeleteTarget(null)], by Cancel or [onOpenChange(false)]), press
    Delete in the dialog, and, from the network, the result of the remote
    call. *)
Inductive Event :=
| RowDelete (row : Item)
| CloseDialog
| ConfirmDelete
| RemoteResult (o : Outcome).

Definition setTarget (t : option Item) (ss : Session Item) : Session Item :=
  {| page := {| client := client (page ss); deleteTarget := t |};
     outstanding := outstanding ss |}.

Definition step (ss : Session Item) (e : Event) : Session Item :=
  match e with
  | RowDelete row => setTarget (Some row) ss
  | CloseDialog => setTarget None ss
  | ConfirmDelete => clickDelete item_id listKey ss
  | RemoteResult o => mutationResolved listKey o ss
  end.

Definition steps (ss : Session Item) (es : list Event) : Session Item :=
  foldl step ss es.

End Dialog.

Arguments Event : clear implicits.

End BoardsView.

(** ** The controls of the kanban page

    The rest of [frontend/src/app/kanban/page.tsx]: the assignee filter and
    the quick move to the next column. *)
Module KanbanControls.
Import KanbanPage.

(** [String(t.assignee_employee_id ?? "")] *)
Definition assigneeKey (t : Task) : string :=
  match assignee_employee_id t with
  | Some n => String_of_Z n
  | None => ""%string
  end.

(** [taskList.filter((t) => { if (assigneeId && String(...) !== assigneeId)
    return false; return true; })] *)
Definition filtered (assigneeId : string) (taskList : list Task) : list Task :=
  filter (λ t, ¬ (assigneeId ≠ ""%string ∧ assigneeKey t ≠ assigneeId)) taskList.

(** [arr.indexOf(x)]: the first index of [x], or -1. *)
Fixpoint indexOfFrom (i : Z) (x : string) (l : list string) : Z :=
  match l with
  | [] => -1
  | y :: l' => if decide (y = x) then i else indexOfFrom (i + 1) x l'
  end.

Definition indexOf (x : string) (l : list string) : Z := indexOfFrom 0 x l.

(** [arr[i]]: [undefined] outside the array. *)
Definition at_index (l : list string) (i : Z) : option string :=
  if i <? 0 then None else l !! Z.to_nat i.

(** [const idx = STATUSES.indexOf(status);
     const next = STATUSES[Math.min(STATUSES.length - 1, idx + 1)]] *)
Definition nextStatus (status : string) : option string :=
  let idx := indexOf status STATUSES in
  at_index STATUSES (Z.min (Z.of_nat (length STATUSES) - 1) (idx + 1)).

(** The request of the arrow button of a card in column [status]:
    [if (!t.id) return; updateTask.mutate({ taskId: Number(t.id), data: {
    status: next } })]; [None] when nothing is sent. *)
Definition quickMove (t : Task) (status : string) : option (Z * option string) :=
  match id t with
  | None => None
  | Some n => if n =? 0 then None else Some (n, nextStatus status)
  end.

End KanbanControls.

(** ** [frontend/src/app/projects/[id]/page.tsx]: the project page *)
Module ProjectPage.
Import KanbanPage.

Definition STATUSES : list string :=
  ["backlog"; "ready"; "in_progress"; "review"; "done"; "blocked"]%string.

(** [for (const s of STATUSES) map.set(s, [])] *)
Definition emptyColumns : gmap string (list Task) :=
  foldl (λ m s, <[s := []]> m) ∅ STATUSES.

(** [const status = t.status ?? "backlog"; map.get(status)?.push(t)] *)
Definition place (m : gmap string (list Task)) (t : Task)
  : gmap string (list Task) :=
  let status := default "backlog"%string (status t) in
  match m !! status with
  | Some arr => <[status := arr ++ [t]]> m
  | None => m
  end.

Definition tasksByStatus (taskList : list Task) : gmap string (list Task) :=
  foldl place emptyColumns taskList.

(** [tasksByStatus.get(s) ?? []] *)
Definition column (taskList : list Task) (s : string) : list Task :=
  default [] (tasksByStatus taskList !! s).

(** The fields of the generated employee type the page reads. *)
Record Employee := {
  employee_id : option Z;
  employee_name : string;
  employee_type : string;
  openclaw_session_key : option string
}.

#[global] Instance Employee_eq_dec : EqDecision Employee.
Proof. solve_decision. Defined.

(** Truthiness of a [string | null]: neither [null] nor empty. *)
Definition truthy (v : option string) : bool :=
  match v with
  | Some s => bool_decide (s ≠ ""%string)
  | None => false
  end.

(** [employeeList.filter((e) => e.employee_type !== "agent" ||
    !!e.openclaw_session_key)] *)
Definition eligibleAssignees (employeeList : list Employee) : list Employee :=
  filter (λ e, employee_type e ≠ "agent"%string
               ∨ truthy (openclaw_session_key e) = true) employeeList.

(** [for (const e of employeeList) { if (e.id != null)
    employeeById.set(Number(e.id), e); }] *)
Definition employeeById (employeeList : list Employee) : gmap Z Employee :=
  foldl (λ m e, match employee_id e with
                | Some n => <[n := e]> m
                | None => m
                end) ∅ employeeList.

(** [t.assignee_employee_id != null ?
    employeeById.get(Number(t.assignee_employee_id)) : undefined] *)
Definition assigneeOf (employeeList : list Employee) (t : Task) : option Employee :=
  match assignee_employee_id t with
  | Some n => employeeById employeeList !! n
  | None => None
  end.

(** [Boolean(t.id != null && assignee && assignee.employee_type === "agent"
    && assignee.openclaw_session_key)] *)
Definition canTrigger (employeeList : list Employee) (t : Task) : bool :=
  match id t, assigneeOf employeeList t with
  | Some _, Some assignee =>
      bool_decide (employee_type assignee = "agent"%string)
      && truthy (openclaw_session_key assignee)
  | _, _ => false
  end.

End ProjectPage.

(** ** Sample data *)
Module Samples.
Import Api QueryCache DeleteMutation.
Import BoardsPage BoardGroupsPage.
Local Open Scope string_scope.

Definition b1 : BoardRead :=
  {| board_id := "b1"; board_name := "Testing";
     board_group_id := None; board_updated_at := "2026-02-07T00:00:00Z" |}.
Definition b2 : BoardRead :=
  {| board_id := "b2"; board_name := "Release";
     board_group_id := Some "g1"; board_updated_at := "2026-02-07T00:01:00Z" |}.

Definition boardsList : LimitOffsetPage BoardRead :=
  {| items := [b1; b2]; total := 2; limit := 200; offset := 0 |}.

(** The boards page with both boards cached, a read in flight, and [b1]
    chosen for deletion. *)
Definition boardsView : Page BoardRead :=
  {| client := {| cache := {[ boardsKey := Response200 boardsList [] ]};
                  fetching := {[ boardsKey ]};
                  stale := ∅;
                  observers := {[ boardsKey ]} |};
     deleteTarget := Some b1 |}.

Definition boardsSession : Session BoardRead :=
  {| page := boardsView; outstanding := [] |}.

Definition invalidLimit : ListResponse BoardRead :=
  Response422 {| detail := ["limit"] |} [].

(** The same page when the last read came back as a 422. *)
Definition boardsView422 : Page BoardRead :=
  {| client := {| cache := {[ boardsKey := invalidLimit ]};
                  fetching := ∅;
                  stale := ∅;
                  observers := {[ boardsKey ]} |};
     deleteTarget := Some b1 |}.

(** The same page before any read returned. *)
Definition boardsViewEmpty : Page BoardRead :=
  {| client := {| cache := ∅;
                  fetching := {[ boardsKey ]};
                  stale := ∅;
                  observers := {[ boardsKey ]} |};
     deleteTarget := Some b1 |}.

Definition g1 : BoardGroupRead :=
  {| group_id := "g1"; group_name := "Platform";
     group_description := None; group_updated_at := "2026-02-07T00:00:00Z" |}.

Definition groupsList : LimitOffsetPage BoardGroupRead :=
  {| items := [g1]; total := 1; limit := 200; offset := 0 |}.

Definition groupsView : Page BoardGroupRead :=
  {| client := {| cache := {[ groupsKey := Response200 groupsList [] ]};
                  fetching := ∅;
                  stale := ∅;
                  observers := {[ groupsKey ]} |};
     deleteTarget := Some g1 |}.

(** [localeCompare] in a locale that orders strings by code unit. *)
Definition codeUnitCompare (a b : string) : Z :=
  match String.compare a b with
  | Lt => -1
  | Eq => 0
  | Gt => 1
  end.

Definition kanbanTask (n : Z) (st : option string) : KanbanPage.Task :=
  {| KanbanPage.id := Some n; KanbanPage.title := "Task";
     KanbanPage.description := None; KanbanPage.status := st;
     KanbanPage.project_id := None;
     KanbanPage.assignee_employee_id := None |}.

Definition kInbox := kanbanTask 1 (Some "inbox").
Definition kReady := kanbanTask 2 (Some "ready").

(** [buildTask] of [TaskBoard.test.tsx] *)
Definition buildTask (i t st : string) (pending : nat) (deps : list string)
    (isBlocked : bool) : TaskBoard.Task :=
  {| TaskBoard.id := i; TaskBoard.title := t; TaskBoard.status := st;
     TaskBoard.priority := "medium";
     TaskBoard.approvals_pending_count := Some pending;
     TaskBoard.blocked_by_task_ids := Some deps;
     TaskBoard.is_blocked := Some isBlocked |}.

(** The three review tasks of the bucket test, and one that is both
    blocked and waiting for approvals. *)
Definition tBlocked := buildTask "blocked" "Blocked Review" "review" 0 ["dep-1"] true.
Definition tApproval := buildTask "approval" "Needs Approval" "review" 2 [] false.
Definition tLead := buildTask "lead" "Lead Review" "review" 0 [] false.
Definition tBoth := buildTask "both" "Blocked, unapproved" "review" 2 ["dep-1"] true.
Definition reviewSample : list TaskBoard.Task := [tBlocked; tApproval; tLead].

(** The drop of the move test: task [t1], dragged from inbox. *)
Definition dropT1 : TaskBoard.DropEvent :=
  {| TaskBoard.taskId := "t1"; TaskBoard.sourceStatus := "inbox" |}.

(** The two comments of the feed test and a later one. *)
Definition c1 : ActivityStream.Item :=
  {| ActivityStream.id := "c1"; ActivityStream.created_at := 1770422400;
     ActivityStream.message := "Hello world" |}.
Definition c2 : ActivityStream.Item :=
  {| ActivityStream.id := "c2"; ActivityStream.created_at := 1770422460;
     ActivityStream.message := "Second comment" |}.
Definition c3 : ActivityStream.Item :=
  {| ActivityStream.id := "c3"; ActivityStream.created_at := 1770422430;
     ActivityStream.message := "In between" |}.
Definition c3' : ActivityStream.Item :=
  {| ActivityStream.id := "c3"; ActivityStream.created_at := 1770422430;
     ActivityStream.message := "In between (edited)" |}.

Definition feed : ActivityStream.QueryEntry :=
  {| ActivityStream.data := [c2; c1]; ActivityStream.total := 2 |}.

(** A group list in which [g1] is loaded, and a board of a group that is
    not. *)
Definition groupsLoaded : list BoardGroupRead := [g1].
Definition b3 : BoardRead :=
  {| board_id := "b3"; board_name := "Archive";
     board_group_id := Some "0c1d2e3f-aaaa-bbbb";
     board_updated_at := "2026-02-07T00:02:00Z" |}.

(** Kanban tasks with an assignee. *)
Definition assigned (n : Z) (who : option Z) : KanbanPage.Task :=
  {| KanbanPage.id := Some n; KanbanPage.title := "Task";
     KanbanPage.description := None; KanbanPage.status := Some "review";
     KanbanPage.project_id := None;
     KanbanPage.assignee_employee_id := who |}.

(** An agent with a session, and a task assigned to it. *)
Definition agent7 : ProjectPage.Employee :=
  {| ProjectPage.employee_id := Some 7; ProjectPage.employee_name := "Riya";
     ProjectPage.employee_type := "agent";
     ProjectPage.openclaw_session_key := Some "sess-7" |}.

End Samples.

(** * Properties *)

(** ** The delete mutation, for any item type and list key *)
Section DeleteMutationFacts.
Import Api QueryCache DeleteMutation.
Context {Item : Type}.
Variable item_id : Item → string.
Variable listKey : QueryKey.

Implicit Types (s : Page Item) (d : LimitOffsetPage Item) (l : list Item).

Lemma exec_onMutate_200 deletedId s d h :
  cache (client s) !! listKey = Some (Response200 d h) →
  exec (onMutate item_id listKey deletedId) s =
    ({| previous := Some (Response200 d h) |},
     on_client (setQueryData listKey (patched item_id deletedId d h))
               (on_client (cancelQueries listKey) s),
     [CallCancelQueries listKey; CallGetQueryData listKey;
      CallSetQueryData listKey (patched item_id deletedId d h)]).
Proof.
  intros Hc. unfold onMutate, mbind, prog_bind. cbn.
  unfold getQueryData. cbn. rewrite Hc. reflexivity.
Qed.

Lemma exec_onMutate_422 deletedId s e h :
  cache (client s) !! listKey = Some (Response422 e h) →
  exec (onMutate item_id listKey deletedId) s =
    ({| previous := Some (Response422 e h) |},
     on_client (cancelQueries listKey) s,
     [CallCancelQueries listKey; CallGetQueryData listKey]).
Proof.
  intros Hc. unfold onMutate, mbind, prog_bind. cbn.
  unfold getQueryData. cbn. rewrite Hc. reflexivity.
Qed.

Lemma exec_onMutate_absent deletedId s :
  cache (client s) !! listKey = None →
  exec (onMutate item_id listKey deletedId) s =
    ({| previous := None |},
     on_client (cancelQueries listKey) s,
     [CallCancelQueries listKey; CallGetQueryData listKey]).
Proof.
  intros Hc. unfold onMutate, mbind, prog_bind. cbn.
  unfold getQueryData. cbn. rewrite Hc. reflexivity.
Qed.

(** The snapshot is whatever the cache held at submit time. *)
Lemma onMutate_snapshot deletedId s :
  previous (result (onMutate item_id listKey deletedId) s)
  = cache (client s) !! listKey.
Proof.
  unfold result.
  destruct (cache (client s) !! listKey) as [[d h|e h]|] eqn:Hc.
  - by rewrite (exec_onMutate_200 _ _ _ _ Hc).
  - by rewrite (exec_onMutate_422 _ _ _ _ Hc).
  - by rewrite (exec_onMutate_absent _ _ Hc).
Qed.

(** The first call of a submit is the cancellation; the snapshot and the
    patch come after it. *)
Lemma onMutate_calls deletedId s :
  ∃ rest,
    calls (onMutate item_id listKey deletedId) s
    = CallCancelQueries listKey :: CallGetQueryData listKey :: rest
    ∧ (rest = [] ∨ ∃ v, rest = [CallSetQueryData listKey v]).
Proof.
  unfold calls.
  destruct (cache (client s) !! listKey) as [[d h|e h]|] eqn:Hc.
  - rewrite (exec_onMutate_200 _ _ _ _ Hc). eauto.
  - rewrite (exec_onMutate_422 _ _ _ _ Hc). eauto.
  - rewrite (exec_onMutate_absent _ _ Hc). eauto.
Qed.

Lemma onMutate_not_fetching deletedId s :
  listKey ∉ fetching (client (run (onMutate item_id listKey deletedId) s)).
Proof.
  unfold run.
  destruct (cache (client s) !! listKey) as [[d h|e h]|] eqn:Hc.
  - rewrite (exec_onMutate_200 _ _ _ _ Hc). cbn.
    rewrite elem_of_difference, elem_of_singleton. tauto.
  - rewrite (exec_onMutate_422 _ _ _ _ Hc). cbn.
    rewrite elem_of_difference, elem_of_singleton. tauto.
  - rewrite (exec_onMutate_absent _ _ Hc). cbn.
    rewrite elem_of_difference, elem_of_singleton. tauto.
Qed.

Lemma resolveFetch_cancelled k v (qc : QueryClient Item) :
  k ∉ fetching qc → resolveFetch k v qc = qc.
Proof. intros H. unfold resolveFetch. by rewrite decide_False. Qed.

(** Splitting a list by a decidable test keeps every element once. *)
Lemma length_filter_split (P : Item → Prop) `{!∀ x, Decision (P x)} l :
  length l = (length (filter P l) + length (filter (λ x, ¬ P x) l))%nat.
Proof.
  induction l as [|x l IH]; [done|].
  rewrite !filter_cons. destruct (decide (P x)) as [HP|HP].
  - rewrite decide_False by tauto. cbn. lia.
  - rewrite decide_True by done. cbn. lia.
Qed.

Lemma removed_count deletedId l :
  Z.of_nat (length l) - Z.of_nat (length (nextItemsOf item_id deletedId l))
  = Z.of_nat (length (filter (λ it, item_id it = deletedId) l)).
Proof.
  unfold nextItemsOf.
  rewrite (length_filter_split (λ it, item_id it = deletedId) l) at 1.
  lia.
Qed.

Lemma nextItemsOf_absent deletedId l :
  deletedId ∉ item_id <$> l → nextItemsOf item_id deletedId l = l.
Proof.
  intros Hn. unfold nextItemsOf. induction l as [|x l IH]; [done|].
  rewrite fmap_cons, not_elem_of_cons in Hn. destruct Hn as [Hx Hl].
  rewrite filter_cons, decide_True by congruence. f_equal. by apply IH.
Qed.

(** C1: a delete submitted against a list whose cached response is a 200
    leaves in the cache exactly the items whose id differs from the
    deleted id, in their order; the cached total is lowered by the number
    of items removed and clamped at zero, so it is never negative; the
    other fields are kept.  Deleting an id that is not among the cached
    items leaves the items and (a total being a count) the total as they
    were.  Both pages instantiate [onMutate]. *)
Theorem optimistic_patch deletedId s d h :
  cache (client s) !! listKey = Some (Response200 d h) →
  ∃ d',
    cache (client (run (onMutate item_id listKey deletedId) s)) !! listKey
    = Some (Response200 d' h)
    ∧ items d' = filter (λ it, item_id it ≠ deletedId) (items d)
    ∧ total d'
      = Z.max 0 (total d
          - Z.of_nat (length (filter (λ it, item_id it = deletedId) (items d))))
    ∧ limit d' = limit d ∧ offset d' = offset d
    ∧ 0 ≤ total d'
    ∧ (deletedId ∉ item_id <$> items d → 0 ≤ total d →
       items d' = items d ∧ total d' = total d).
Proof.
  intros Hc. unfold run. rewrite (exec_onMutate_200 _ _ _ _ Hc). cbn.
  rewrite lookup_insert_eq. eexists. split; [reflexivity|]. cbn.
  rewrite removed_count.
  repeat split; try done; try lia.
  - by apply nextItemsOf_absent.
  - rewrite <- (removed_count deletedId (items d)), nextItemsOf_absent by done.
    lia.
Qed.

(** Rolling back: the handler writes the snapshot, whatever the cache
    holds by then. *)
Lemma run_onError_snapshot prev s' :
  run (onError listKey (Some {| previous := Some prev |})) s'
  = on_client (setQueryData listKey prev) s'.
Proof. reflexivity. Qed.

Lemma onError_restores prev s' :
  cache (client (run (onError listKey (Some {| previous := Some prev |})) s'))
    !! listKey = Some prev.
Proof. rewrite run_onError_snapshot. cbn. apply lookup_insert_eq. Qed.

(** C2: when the remote call fails, [onError] writes back the snapshot
    taken at submit time: the cached entry equals the pre-mutation value
    itself, whatever the cache holds by then, and right after the
    optimistic patch the whole cache is as it was before the submit. *)
Theorem rollback_exact deletedId s prev :
  cache (client s) !! listKey = Some prev →
  let ctx := result (onMutate item_id listKey deletedId) s in
  (∀ s', cache (client (run (onError listKey (Some ctx)) s')) !! listKey
         = Some prev)
  ∧ cache (client (run (onError listKey (Some ctx))
                    (run (onMutate item_id listKey deletedId) s)))
    = cache (client s).
Proof.
  intros Hc ctx.
  assert (Hctx : ctx = {| previous := Some prev |}).
  { pose proof (onMutate_snapshot deletedId s) as Hs. fold ctx in Hs.
    destruct ctx as [p]. cbn in Hs. by rewrite Hs, Hc. }
  rewrite Hctx. split.
  - intros s'. apply onError_restores.
  - rewrite run_onError_snapshot. unfold run.
    destruct prev as [d h|e h].
    + rewrite (exec_onMutate_200 _ _ _ _ Hc). cbn.
      rewrite insert_insert_eq. by apply insert_id.
    + rewrite (exec_onMutate_422 _ _ _ _ Hc). cbn. by apply insert_id.
Qed.

(** C3: a submit first cancels the reads in flight for the list key, and
    only then takes the snapshot and applies the patch; after the submit
    no read for the key is in flight, so the response of a read that was
    in flight at submit time changes nothing. *)
Theorem submit_cancels_reads_first deletedId s :
  let s' := run (onMutate item_id listKey deletedId) s in
  (∃ rest,
      calls (onMutate item_id listKey deletedId) s
      = CallCancelQueries listKey :: CallGetQueryData listKey :: rest
      ∧ (rest = [] ∨ ∃ v, rest = [CallSetQueryData listKey v]))
  ∧ (listKey ∉ fetching (client s'))
  ∧ (∀ v, resolveFetch listKey v (client s') = client s').
Proof.
  repeat split.
  - apply onMutate_calls.
  - apply onMutate_not_fetching.
  - intros v. apply resolveFetch_cancelled, onMutate_not_fetching.
Qed.

(** C9: when the remote call settles, after success and after failure
    alike, the last thing the callbacks do is invalidate the list key: it
    is marked stale, and re-fetched when it is observed.  After a failure
    the entry re-fetched is the restored snapshot. *)
Theorem settle_invalidates o ctx s :
  let s' := run (settle listKey o ctx) s in
  listKey ∈ stale (client s')
  ∧ (listKey ∈ observers (client s) → listKey ∈ fetching (client s'))
  ∧ last (calls (settle listKey o ctx) s)
    = Some (CallInvalidateQueries listKey)
  ∧ (∀ prev, o = Failed → previous ctx = Some prev →
     cache (client s') !! listKey = Some prev).
Proof.
  destruct o, ctx as [[prev|]]; cbn; unfold run, calls; cbn.
  all: split; [set_solver|].
  all: split; [intros Ho; rewrite decide_True by done; set_solver|].
  all: split; [done|].
  all: intros prev' Ho Hp; try discriminate.
  injection Hp as <-. apply lookup_insert_eq.
Qed.

(** C10 (amended): when the cache holds no response for the list key, or a
    response that is not a 200, a submit writes nothing and the cache is
    as before.  With no cached response there is no snapshot and a later
    failure writes nothing either; with a cached non-200 response that
    response is the snapshot, and a later failure writes it back. *)
Theorem no_patch_without_200 deletedId s :
  (cache (client s) !! listKey = None
   ∨ ∃ e h, cache (client s) !! listKey = Some (Response422 e h)) →
  let ctx := result (onMutate item_id listKey deletedId) s in
  cache (client (run (onMutate item_id listKey deletedId) s))
  = cache (client s)
  ∧ List.filter is_write (calls (onMutate item_id listKey deletedId) s) = []
  ∧ previous ctx = cache (client s) !! listKey
  ∧ (cache (client s) !! listKey = None →
     ∀ s', exec (onError listKey (Some ctx)) s' = (tt, s', []))
  ∧ (∀ r, cache (client s) !! listKey = Some r →
     ∀ s', calls (onError listKey (Some ctx)) s'
           = [CallSetQueryData listKey r]).
Proof.
  intros Hc ctx.
  assert (Hctx : ctx = {| previous := cache (client s) !! listKey |}).
  { pose proof (onMutate_snapshot deletedId s) as Hs. fold ctx in Hs.
    destruct ctx as [p]. cbn in Hs. by rewrite Hs. }
  rewrite Hctx. unfold run, calls.
  destruct Hc as [Hc|(e & h & Hc)].
  - rewrite (exec_onMutate_absent _ _ Hc), Hc. cbn.
    repeat split; done.
  - rewrite (exec_onMutate_422 _ _ _ _ Hc), Hc. cbn.
    repeat split; try done. intros r Hr s'. by injection Hr as <-.
Qed.

Implicit Types (ss : Session Item).

(** When the oldest outstanding delete returns, with either outcome, the
    list key is stale and the delete is no longer outstanding. *)
Lemma mutationResolved_invalidates o ss m rest :
  outstanding ss = m :: rest →
  listKey ∈ stale (client (page (mutationResolved listKey o ss)))
  ∧ outstanding (mutationResolved listKey o ss) = rest.
Proof.
  intros Ho. unfold mutationResolved. rewrite Ho. cbn. split; [|done].
  destruct o, (context m) as [[prev|]]; unfold run; cbn; set_solver.
Qed.

Lemma mutate_outstanding deletedId ss :
  variables <$> outstanding (mutate item_id listKey deletedId ss)
  = (variables <$> outstanding ss) ++ [deletedId].
Proof.
  unfold mutate.
  destruct (exec (onMutate item_id listKey deletedId) (page ss)) as [[c p] tr].
  cbn. by rewrite fmap_app.
Qed.

(** C4 (amended): [handleDelete] never rejects.  With a row chosen it
    submits a delete for that row's id, also while an earlier delete of
    the same id is unresolved; with none chosen it does nothing.  Repeated
    submits are held back only by the Delete button, which is disabled
    while the mutation is pending: a click then changes nothing, and
    through the button at most one delete is outstanding. *)
Theorem handleDelete_never_rejects ss :
  (∀ target, deleteTarget (page ss) = Some target →
     variables <$> outstanding (handleDelete item_id listKey ss)
     = (variables <$> outstanding ss) ++ [item_id target])
  ∧ (deleteTarget (page ss) = None → handleDelete item_id listKey ss = ss)
  ∧ (isPending ss = true → clickDelete item_id listKey ss = ss)
  ∧ (isPending ss = false →
     clickDelete item_id listKey ss = handleDelete item_id listKey ss)
  ∧ ((length (outstanding ss) ≤ 1)%nat →
     (length (outstanding (clickDelete item_id listKey ss)) ≤ 1)%nat).
Proof.
  repeat split.
  - intros target Ht. unfold handleDelete. rewrite Ht.
    apply mutate_outstanding.
  - intros Ht. unfold handleDelete. by rewrite Ht.
  - intros Hp. unfold clickDelete. by rewrite Hp.
  - intros Hp. unfold clickDelete. by rewrite Hp.
  - intros Hl. unfold clickDelete, isPending.
    destruct (outstanding ss) as [|m rest] eqn:Ho; [|by rewrite Ho].
    unfold handleDelete. destruct (deleteTarget (page ss)) as [t|].
    + rewrite <- (length_fmap variables), mutate_outstanding, Ho. cbn. lia.
    + rewrite Ho. cbn. lia.
Qed.

End DeleteMutationFacts.

(** ** The two pages *)
Section PagesFacts.
Import Api QueryCache DeleteMutation Samples.
Import BoardsPage.
Local Open Scope string_scope.

(** Deleting [b1] on the boards page leaves [b2] alone and a total of 1;
    deleting a board that is not cached leaves both boards and the total
    of 2. *)
Lemma optimistic_patch_witness :
  (∃ d', cache (client (run (BoardsPage.onMutate "b1") boardsView)) !! boardsKey
         = Some (Response200 d' [])
         ∧ items d' = [b2] ∧ total d' = 1)
  ∧ (∃ d', cache (client (run (BoardsPage.onMutate "b9") boardsView)) !! boardsKey
           = Some (Response200 d' [])
           ∧ items d' = [b1; b2] ∧ total d' = 2).
Proof.
  split.
  - destruct (optimistic_patch board_id boardsKey "b1" boardsView boardsList []
                eq_refl) as (d' & Hc & Hi & Ht & _).
    exists d'. split; [exact Hc|]. split.
    + rewrite Hi. reflexivity.
    + rewrite Ht. reflexivity.
  - destruct (optimistic_patch board_id boardsKey "b9" boardsView boardsList []
                eq_refl) as (d' & Hc & _ & _ & _ & _ & _ & Hsame).
    exists d'. split; [exact Hc|]. apply Hsame.
    + apply (bool_decide_unpack _). vm_compute. reflexivity.
    + simpl. lia.
Defined.

(** Deleting the only group and failing puts the group list back. *)
Lemma rollback_exact_witness :
  cache (client
           (run (BoardGroupsPage.onError
                   (Some (result (BoardGroupsPage.onMutate "g1") groupsView)))
                (run (BoardGroupsPage.onMutate "g1") groupsView)))
  = cache (client groupsView).
Proof.
  exact (proj2 (rollback_exact group_id BoardGroupsPage.groupsKey "g1"
                  groupsView (Response200 groupsList []) eq_refl)).
Defined.

Lemma settle_invalidates_witness :
  BoardsPage.boardsKey
  ∈ fetching (client (run (settle boardsKey Failed {| previous := None |})
                          boardsView422)).
Proof.
  apply (settle_invalidates boardsKey Failed {| previous := None |}
           boardsView422).
  simpl. apply elem_of_singleton. reflexivity.
Defined.

Lemma no_patch_without_200_witness :
  cache (client (run (BoardsPage.onMutate "b1") boardsViewEmpty))
  = cache (client boardsViewEmpty).
Proof.
  apply (no_patch_without_200 board_id boardsKey "b1" boardsViewEmpty).
  left. reflexivity.
Defined.

(** C10, as stated, fails: the boards list is cached as a 422; the submit
    patches nothing but keeps that response as its snapshot, and when the
    remote call then fails, [onError] writes it back; had a read delivered
    a 200 in between, the write puts the 422 over it. *)
Lemma failure_after_non_200_writes_snapshot :
  let ctx := result (BoardsPage.onMutate "b1") boardsView422 in
  let s1 := run (BoardsPage.onMutate "b1") boardsView422 in
  let s2 := on_client (λ qc, resolveFetch boardsKey (Response200 boardsList [])
                               (invalidateQueries boardsKey qc)) s1 in
  cache (client boardsView422) !! boardsKey = Some invalidLimit
  ∧ status invalidLimit ≠ 200
  ∧ previous ctx = Some invalidLimit
  ∧ calls (BoardsPage.onError (Some ctx)) s1
    = [CallSetQueryData boardsKey invalidLimit]
  ∧ cache (client s2) !! boardsKey = Some (Response200 boardsList [])
  ∧ cache (client (run (BoardsPage.onError (Some ctx)) s2)) !! boardsKey
    = Some invalidLimit.
Proof. vm_compute. repeat split; done. Qed.

Lemma handleDelete_never_rejects_witness :
  variables <$> outstanding (BoardsPage.handleDelete boardsSession) = ["b1"]
  ∧ BoardsPage.clickDelete (BoardsPage.handleDelete boardsSession)
    = BoardsPage.handleDelete boardsSession.
Proof.
  split.
  - exact (proj1 (handleDelete_never_rejects board_id boardsKey boardsSession)
             b1 eq_refl).
  - exact (proj1 (proj2 (proj2
             (handleDelete_never_rejects board_id boardsKey
                (BoardsPage.handleDelete boardsSession)))) eq_refl).
Defined.

(** C4, as stated, fails: with a delete of [b1] unresolved, a second
    [handleDelete] for [b1] is applied as well; nothing is rejected. *)
Lemma second_submit_is_applied :
  let s1 := BoardsPage.handleDelete boardsSession in
  let s2 := BoardsPage.handleDelete s1 in
  isPending s1 = true
  ∧ variables <$> outstanding s1 = ["b1"]
  ∧ variables <$> outstanding s2 = ["b1"; "b1"].
Proof. vm_compute. done. Qed.

End PagesFacts.

(** ** The kanban page *)
Section KanbanFacts.
Import KanbanPage.
Variable localeCompare : string → string → Z.

Implicit Types (m : gmap string (list Task)) (t : Task) (l : list Task).

Lemma insert_sorted_perm x l : insert_sorted localeCompare x l ≡ₚ x :: l.
Proof.
  induction l as [|y l IH]; cbn; [done|].
  destruct (0 <? compareFn localeCompare y x)%Z; [done|].
  rewrite IH. apply Permutation_swap.
Qed.

Lemma sort_perm l : sort localeCompare l ≡ₚ l.
Proof.
  unfold sort.
  enough (∀ acc, foldl (λ acc x, insert_sorted localeCompare x acc) acc l
                 ≡ₚ acc ++ l) as H by apply (H []).
  induction l as [|x l IH]; intros acc; cbn.
  - by rewrite app_nil_r.
  - rewrite IH, insert_sorted_perm. cbn. apply Permutation_middle.
Qed.

Lemma lookup_set_empty (ss : list string) m c :
  foldl (λ m s, <[s := []]> m) m ss !! c
  = if decide (c ∈ ss) then Some [] else m !! c.
Proof.
  revert m. induction ss as [|s ss IH]; intros m; cbn.
  - rewrite decide_False; [done|apply not_elem_of_nil].
  - rewrite IH. destruct (decide (c ∈ ss)) as [Hin|Hin].
    + rewrite decide_True; [done|by apply elem_of_cons; right].
    + destruct (decide (c = s)) as [->|Hne].
      * rewrite lookup_insert_eq, decide_True; [done|apply elem_of_cons; by left].
      * rewrite lookup_insert_ne by done.
        rewrite decide_False; [done|].
        intros [?|?]%elem_of_cons; done.
Qed.

Lemma lookup_emptyColumns c :
  emptyColumns !! c = if decide (c ∈ STATUSES) then Some [] else None.
Proof. unfold emptyColumns. by rewrite lookup_set_empty, lookup_empty. Qed.

Lemma backlog_status : "backlog"%string ∈ STATUSES.
Proof. apply elem_of_cons. by left. Qed.

Lemma columnOf_status t : columnOf t ∈ STATUSES.
Proof. unfold columnOf. case_decide; [done|apply backlog_status]. Qed.

Lemma place_columnOf m t :
  columns_ok m →
  place m t = <[columnOf t := default [] (m !! columnOf t) ++ [t]]> m.
Proof.
  intros Hok. unfold place, columnOf.
  set (s := default "backlog"%string (status t)).
  destruct (decide (s ∈ STATUSES)) as [Hs|Hs].
  - apply Hok in Hs as [arr Harr]. by rewrite Harr.
  - destruct (m !! s) as [arr|] eqn:Hm.
    + exfalso. apply Hs, Hok. by rewrite Hm.
    + destruct (proj2 (Hok "backlog"%string) backlog_status) as [arr Harr].
      by rewrite Harr.
Qed.

Lemma place_ok m t : columns_ok m → columns_ok (place m t).
Proof.
  intros Hok c. rewrite place_columnOf by done.
  destruct (decide (c = columnOf t)) as [->|Hne].
  - rewrite lookup_insert_eq. split; [intros _; apply columnOf_status|eauto].
  - rewrite lookup_insert_ne by done. apply Hok.
Qed.

Lemma lookup_foldl_place l m c :
  columns_ok m → c ∈ STATUSES →
  foldl place m l !! c
  = Some (default [] (m !! c) ++ filter (λ t, columnOf t = c) l).
Proof.
  revert m. induction l as [|t l IH]; intros m Hok Hc; cbn [foldl].
  - apply Hok in Hc as [arr Harr]. rewrite Harr. cbn. by rewrite app_nil_r.
  - rewrite IH by auto using place_ok.
    rewrite place_columnOf by done. rewrite filter_cons.
    destruct (decide (columnOf t = c)) as [<-|Hne].
    + rewrite lookup_insert_eq. cbn. by rewrite <- app_assoc.
    + by rewrite lookup_insert_ne.
Qed.

Lemma foldl_place_ok l m : columns_ok m → columns_ok (foldl place m l).
Proof.
  revert m. induction l as [|t l IH]; intros m Hok; cbn; [done|].
  apply IH, place_ok, Hok.
Qed.

Lemma lookup_sortColumn m s c :
  sortColumn localeCompare m s !! c
  = if decide (c = s) then sort localeCompare <$> m !! c else m !! c.
Proof.
  unfold sortColumn. destruct (decide (c = s)) as [->|Hne].
  - destruct (m !! s) as [arr|] eqn:Hm; [by rewrite lookup_insert_eq|].
    by rewrite Hm.
  - destruct (m !! s); [by rewrite lookup_insert_ne|done].
Qed.

Lemma lookup_foldl_sortColumn (ss : list string) m c :
  NoDup ss →
  foldl (sortColumn localeCompare) m ss !! c
  = if decide (c ∈ ss) then sort localeCompare <$> m !! c else m !! c.
Proof.
  intros Hnd. revert m.
  induction Hnd as [|s ss Hs Hnd IH]; intros m; cbn.
  - rewrite decide_False; [done|apply not_elem_of_nil].
  - rewrite IH, lookup_sortColumn.
    destruct (decide (c = s)) as [->|Hne].
    + rewrite decide_False by done.
      rewrite decide_True; [done|apply elem_of_cons; by left].
    + destruct (decide (c ∈ ss)) as [Hin|Hin].
      * rewrite decide_True; [done|apply elem_of_cons; by right].
      * rewrite decide_False; [done|]. intros [?|?]%elem_of_cons; done.
Qed.

Lemma NoDup_STATUSES : NoDup STATUSES.
Proof. by apply (bool_decide_unpack (NoDup STATUSES)). Qed.

Lemma emptyColumns_ok : columns_ok emptyColumns.
Proof.
  intros c. rewrite lookup_emptyColumns. case_decide.
  - split; [done|eauto].
  - split; [intros [? ?]; done|done].
Qed.

(** The columns of the page, in closed form. *)
Lemma lookup_tasksByStatus l c :
  tasksByStatus localeCompare l !! c
  = if decide (c ∈ STATUSES)
    then Some (sort localeCompare (filter (λ t, columnOf t = c) l))
    else None.
Proof.
  unfold tasksByStatus. rewrite lookup_foldl_sortColumn by apply NoDup_STATUSES.
  destruct (decide (c ∈ STATUSES)) as [Hc|Hc].
  - rewrite lookup_foldl_place by auto using emptyColumns_ok.
    rewrite lookup_emptyColumns, decide_True by done. reflexivity.
  - destruct (foldl place emptyColumns l !! c) eqn:Hm; [|done].
    exfalso. apply Hc. apply (foldl_place_ok l _ emptyColumns_ok).
    by rewrite Hm.
Qed.

Lemma column_perm l c :
  column localeCompare l c ≡ₚ filter (λ t, columnOf t = c) l.
Proof.
  unfold column. rewrite lookup_tasksByStatus.
  destruct (decide (c ∈ STATUSES)) as [Hc|Hc]; cbn.
  - apply sort_perm.
  - symmetry. apply Permutation_nil_r.
    induction l as [|t l IH]; [done|].
    rewrite filter_cons, decide_False; [done|].
    intros <-. apply Hc, columnOf_status.
Qed.

(** C6 (amended): the kanban page shows each task of the filtered list in
    exactly one of the six columns backlog, ready, in_progress, review,
    blocked, done; the column depends on the task's status alone; a task
    whose status is one of the six goes to that column, and a task with
    no status or any other status goes to backlog. *)
Theorem kanban_columns filtered :
  (∀ c, column localeCompare filtered c
        ≡ₚ filter (λ t, columnOf t = c) filtered)
  ∧ (∀ t c, t ∈ column localeCompare filtered c
            ↔ t ∈ filtered ∧ c = columnOf t)
  ∧ (∀ t, columnOf t ∈ STATUSES)
  ∧ (∀ t t', status t = status t' → columnOf t = columnOf t')
  ∧ (∀ t s, status t = Some s → s ∈ STATUSES → columnOf t = s)
  ∧ (∀ t, status t = None ∨ (∃ s, status t = Some s ∧ s ∉ STATUSES) →
          columnOf t = "backlog"%string).
Proof.
  split; [intros c; apply column_perm|].
  split.
  { intros t c. rewrite column_perm, list_elem_of_filter.
    split; intros [? ?]; split; congruence. }
  split; [apply columnOf_status|].
  split.
  { intros t t' Hs. unfold columnOf. by rewrite Hs. }
  split.
  { intros t s Hs Hin. unfold columnOf. rewrite Hs. cbn.
    by rewrite decide_True. }
  intros t [Hs|(s & Hs & Hn)]; unfold columnOf; rewrite Hs; cbn.
  - by rewrite decide_True by apply backlog_status.
  - by rewrite decide_False.
Qed.

End KanbanFacts.

Section KanbanExamples.
Import KanbanPage Samples.

Lemma kanban_columns_witness : columnOf kInbox = "backlog"%string.
Proof.
  destruct (kanban_columns codeUnitCompare [kInbox]) as (_ & _ & _ & _ & _ & H).
  apply H. right. exists "inbox"%string. split; [reflexivity|].
  apply (bool_decide_unpack _). vm_compute. reflexivity.
Defined.

(** C6, as stated, fails on the kanban page: it has no inbox column; a
    task whose status is inbox is shown under backlog and a task whose
    status is ready under ready, neither of which is one of inbox,
    in_progress, review, done. *)
Lemma kanban_page_has_no_inbox_column :
  tasksByStatus codeUnitCompare [kInbox; kReady] !! "inbox"%string = None
  ∧ column codeUnitCompare [kInbox; kReady] "backlog"%string = [kInbox]
  ∧ column codeUnitCompare [kInbox; kReady] "ready"%string = [kReady]
  ∧ ("backlog"%string ∉ ["inbox"; "in_progress"; "review"; "done"]%string)
  ∧ ("ready"%string ∉ ["inbox"; "in_progress"; "review"; "done"]%string).
Proof.
  split; [by vm_compute|]. split; [by vm_compute|]. split; [by vm_compute|].
  split; apply (bool_decide_unpack _); by vm_compute.
Qed.

End KanbanExamples.

(** ** The task board *)
Section TaskBoardFacts.
Import TaskBoard Samples.

Implicit Types (t : Task) (tasks : list Task).

Lemma columnOf_review t : columnOf t = Review ↔ status t = "review"%string.
Proof.
  unfold columnOf, columnOfStatus.
  repeat case_decide; split; intros Hs; try done.
  all: rewrite Hs in *; done.
Qed.

(** The rule list evaluated top to bottom, in closed form. *)
Lemma classify_review t :
  status t = "review"%string →
  classify t = if blocked t then Some Blocked
               else if bool_decide (0 < approvals t)%nat then Some ApprovalNeeded
               else Some LeadReview.
Proof.
  intros Hs. unfold classify, rules, firstMatch.
  destruct (blocked t); [done|].
  destruct (bool_decide (0 < approvals t)%nat) eqn:Ha; [done|].
  apply bool_decide_eq_false in Ha.
  rewrite !bool_decide_true; [done|lia|done].
Qed.

Lemma review_all tasks :
  reviewTasks All tasks = filter (λ t, status t = "review"%string) tasks.
Proof.
  unfold reviewTasks, byColumn. apply list_filter_iff. intros t.
  apply columnOf_review.
Qed.

Lemma length_by_bucket (l : list Task) :
  (∀ t, t ∈ l → is_Some (classify t)) →
  length l
  = (length (filter (λ t, classify t = Some Blocked) l)
     + length (filter (λ t, classify t = Some ApprovalNeeded) l)
     + length (filter (λ t, classify t = Some LeadReview) l))%nat.
Proof.
  induction l as [|t l IH]; intros Hall; [done|].
  rewrite !filter_cons.
  specialize (IH (λ x Hx, Hall x (list_elem_of_further _ _ _ Hx))).
  destruct (Hall t (list_elem_of_here _ _)) as [[| |] Hb]; rewrite Hb.
  all: repeat case_decide; try done; rewrite ?length_cons; lia.
Qed.

(** C5: every task of the review column falls into exactly one bucket,
    the first of blocked, approval needed, lead review whose rule holds;
    a blocked task with pending approvals is under blocked and not under
    approval needed; the filter All shows the whole review column, which
    the three buckets split. *)
Theorem triage_buckets tasks :
  reviewTasks All tasks = filter (λ t, status t = "review"%string) tasks
  ∧ (∀ t, t ∈ reviewTasks All tasks →
       classify t = (if blocked t then Some Blocked
                     else if bool_decide (0 < approvals t)%nat
                          then Some ApprovalNeeded
                          else Some LeadReview)
       ∧ ∃ b, classify t = Some b
              ∧ ∀ b', t ∈ reviewTasks (Only b') tasks ↔ b' = b)
  ∧ (∀ t, t ∈ reviewTasks All tasks →
       is_blocked t = Some true → (0 < approvals t)%nat →
       t ∈ reviewTasks (Only Blocked) tasks
       ∧ (t ∉ reviewTasks (Only ApprovalNeeded) tasks))
  ∧ length (reviewTasks All tasks)
    = (length (reviewTasks (Only Blocked) tasks)
       + length (reviewTasks (Only ApprovalNeeded) tasks)
       + length (reviewTasks (Only LeadReview) tasks))%nat.
Proof.
  assert (Hcl : ∀ t, t ∈ reviewTasks All tasks →
            classify t = (if blocked t then Some Blocked
                          else if bool_decide (0 < approvals t)%nat
                               then Some ApprovalNeeded
                               else Some LeadReview)).
  { intros t Ht. rewrite review_all in Ht.
    apply list_elem_of_filter in Ht as [Hs _]. by apply classify_review. }
  assert (Hsome : ∀ t, t ∈ reviewTasks All tasks → is_Some (classify t)).
  { intros t Ht. rewrite (Hcl t Ht).
    destruct (blocked t); [eauto|]. case_bool_decide; eauto. }
  split; [apply review_all|]. split; [|split].
  - intros t Ht. split; [by apply Hcl|].
    destruct (Hsome t Ht) as [b Hb]. exists b. split; [done|].
    intros b'. cbn [reviewTasks]. rewrite list_elem_of_filter, Hb.
    split; [intros [Hbb _]; congruence|intros ->; done].
  - intros t Ht Hb Ha. cbn [reviewTasks]. rewrite !list_elem_of_filter.
    rewrite (Hcl t Ht). unfold blocked. rewrite Hb. cbn [default].
    split; [done|]. intros [? _]. done.
  - cbn [reviewTasks]. apply length_by_bucket. intros t Ht. by apply Hsome.
Qed.

Lemma triage_buckets_witness :
  tBoth ∈ reviewTasks (Only Blocked) (tBoth :: reviewSample)
  ∧ (tBoth ∉ reviewTasks (Only ApprovalNeeded) (tBoth :: reviewSample)).
Proof.
  destruct (triage_buckets (tBoth :: reviewSample)) as (_ & _ & H & _).
  apply (H tBoth).
  - apply (bool_decide_unpack _). vm_compute. reflexivity.
  - reflexivity.
  - vm_compute. lia.
Defined.

(** The bucket test of [TaskBoard.test.tsx]: All 3, and one task under
    each of the three filters. *)
Example review_filters_of_the_test :
  reviewTasks All reviewSample = [tBlocked; tApproval; tLead]
  ∧ reviewTasks (Only Blocked) reviewSample = [tBlocked]
  ∧ reviewTasks (Only ApprovalNeeded) reviewSample = [tApproval]
  ∧ reviewTasks (Only LeadReview) reviewSample = [tLead].
Proof. by vm_compute. Qed.

(** C7: a drop whose destination differs from the source status issues
    exactly one mutation, for the dropped task, whose only changed field
    is status, set to the destination; a drop on the task's own column
    issues none. *)
Theorem drop_issues_one_status_change ev destination :
  (sourceStatus ev ≠ destination →
     onDrop ev destination
     = [{| target := taskId ev;
           changes := [("status"%string, destination)] |}])
  ∧ (sourceStatus ev = destination → onDrop ev destination = []).
Proof.
  unfold onDrop. split; intros H.
  - by rewrite decide_False.
  - by rewrite decide_True.
Qed.

Lemma drop_issues_one_status_change_witness :
  onDrop dropT1 "done"
  = [{| target := "t1"; changes := [("status", "done")] |}]%string
  ∧ onDrop dropT1 "inbox" = [].
Proof.
  split.
  - apply (proj1 (drop_issues_one_status_change dropT1 "done")).
    simpl. discriminate.
  - apply (proj2 (drop_issues_one_status_change dropT1 "inbox")).
    reflexivity.
Defined.

(** The board itself has the four columns, with inbox as the fallback. *)
Lemma board_columns t :
  columnOf t ∈ columns
  ∧ (status t ∉ ["in_progress"; "review"; "done"]%string → columnOf t = Inbox).
Proof.
  unfold columnOf, columnOfStatus, columns. split.
  - repeat case_decide; apply (bool_decide_unpack _); by vm_compute.
  - intros Hn. repeat case_decide; try done; exfalso; apply Hn.
    all: match goal with H : status _ = _ |- _ => rewrite H end.
    all: apply (bool_decide_unpack _); by vm_compute.
Qed.

End TaskBoardFacts.

(** ** The live feed merge *)
Section ActivityStreamFacts.
Import ActivityStream Samples.

Implicit Types (ev x : Item) (l : list Item) (q : QueryEntry).

Lemma hasId_true i l : hasId i l = true ↔ i ∈ id <$> l.
Proof. unfold hasId. apply bool_decide_eq_true. Qed.

Lemma hasId_false i l : hasId i l = false ↔ i ∉ id <$> l.
Proof. unfold hasId. apply bool_decide_eq_false. Qed.

Lemma insertByCreatedAt_perm ev l : insertByCreatedAt ev l ≡ₚ ev :: l.
Proof.
  induction l as [|x l IH]; cbn; [done|].
  destruct (created_at ev <? created_at x); [|done].
  rewrite IH. apply Permutation_swap.
Qed.

Lemma replaceById_ids ev l : id <$> replaceById ev l = id <$> l.
Proof.
  induction l as [|x l IH]; cbn; [done|].
  case_decide as Hx; cbn; [by rewrite Hx|by rewrite IH].
Qed.

(** A replacement is an update at the index of the first item with the
    id. *)
Lemma replaceById_insert ev l :
  id ev ∈ id <$> l →
  ∃ i old, l !! i = Some old ∧ id old = id ev
           ∧ replaceById ev l = <[i := ev]> l.
Proof.
  induction l as [|x l IH]; cbn; intros Hin.
  - by apply elem_of_nil in Hin.
  - case_decide as Hx.
    + by exists 0%nat, x.
    + apply elem_of_cons in Hin as [Hin|Hin]; [congruence|].
      destruct (IH Hin) as (i & old & Hl & Hid & Hr).
      exists (S i), old. cbn. by rewrite Hr.
Qed.

Lemma replaceById_twice ev l :
  replaceById ev (replaceById ev l) = replaceById ev l.
Proof.
  induction l as [|x l IH]; cbn; [done|].
  case_decide as Hx; cbn.
  - by rewrite decide_True.
  - by rewrite decide_False, IH.
Qed.

Lemma replaceById_inserted ev l :
  id ev ∉ id <$> l →
  replaceById ev (insertByCreatedAt ev l) = insertByCreatedAt ev l.
Proof.
  induction l as [|x l IH]; cbn; intros Hn.
  - by rewrite decide_True.
  - apply not_elem_of_cons in Hn as [Hx Hn].
    destruct (created_at ev <? created_at x); cbn.
    + rewrite decide_False by congruence. by rewrite IH.
    + by rewrite decide_True.
Qed.

Lemma merge_hasId ev q : hasId (id ev) (data (merge ev q)) = true.
Proof.
  unfold merge. destruct (hasId (id ev) (data q)) eqn:Hh; cbn.
  - apply hasId_true. rewrite replaceById_ids. by apply hasId_true.
  - apply hasId_true. rewrite insertByCreatedAt_perm.
    apply elem_of_cons. by left.
Qed.

Lemma merge_update ev q :
  hasId (id ev) (data q) = true →
  merge ev q = {| data := replaceById ev (data q); total := total q |}.
Proof. intros Hh. unfold merge. by rewrite Hh. Qed.

Lemma merge_NoDup ev q :
  NoDup (id <$> data q) → NoDup (id <$> data (merge ev q)).
Proof.
  intros Hnd. unfold merge. destruct (hasId (id ev) (data q)) eqn:Hh; cbn.
  - by rewrite replaceById_ids.
  - rewrite insertByCreatedAt_perm. cbn. apply NoDup_cons.
    split; [by apply hasId_false|done].
Qed.

Lemma no_entry_without_id i l :
  i ∉ id <$> l → filter (λ x, id x = i) l = [].
Proof.
  induction l as [|x l IH]; cbn [fmap list_fmap]; intros Hn; [done|].
  apply not_elem_of_cons in Hn as [Hx Hn].
  rewrite filter_cons, decide_False by congruence. by apply IH.
Qed.

Lemma one_entry_per_id i l :
  NoDup (id <$> l) → i ∈ id <$> l →
  length (filter (λ x, id x = i) l) = 1%nat.
Proof.
  induction l as [|x l IH]; cbn [fmap list_fmap]; intros Hnd Hin.
  - by apply elem_of_nil in Hin.
  - apply NoDup_cons in Hnd as [Hx Hnd]. rewrite filter_cons.
    case_decide as Hi.
    + subst i. by rewrite no_entry_without_id.
    + apply elem_of_cons in Hin as [Hin|Hin]; [congruence|]. by apply IH.
Qed.

(** C8: merging the same event a second time changes nothing: the data,
    with the event at its position, and the total stay as the first
    delivery left them.  A second delivery under the same id is written
    over the entry at its index, leaving the total alone; and when the
    ids of the list were unique, one entry carries the id afterwards. *)
Theorem merge_idempotent ev q :
  merge ev (merge ev q) = merge ev q
  ∧ (∀ ev', id ev' = id ev →
       ∃ i old, data (merge ev q) !! i = Some old ∧ id old = id ev
                ∧ merge ev' (merge ev q)
                  = {| data := <[i := ev']> (data (merge ev q));
                       total := total (merge ev q) |})
  ∧ (NoDup (id <$> data q) →
       length (filter (λ x, id x = id ev) (data (merge ev (merge ev q))))
       = 1%nat).
Proof.
  assert (Hidem : merge ev (merge ev q) = merge ev q).
  { unfold merge at 1. rewrite merge_hasId.
    unfold merge. destruct (hasId (id ev) (data q)) eqn:Hh; cbn.
    - by rewrite replaceById_twice.
    - rewrite replaceById_inserted; [done|by apply hasId_false]. }
  split; [done|]. split.
  - intros ev' Hid.
    pose proof (merge_hasId ev q) as Hh. rewrite <- Hid in Hh.
    destruct (replaceById_insert ev' (data (merge ev q)))
      as (i & old & Hl & Ho & Hr); [by apply hasId_true|].
    exists i, old. rewrite (merge_update ev' _ Hh), Hr.
    repeat split; [done|congruence].
  - intros Hnd. rewrite Hidem. apply one_entry_per_id.
    + by apply merge_NoDup.
    + apply hasId_true, merge_hasId.
Qed.

Lemma merge_idempotent_witness :
  ∃ i old, data (merge c3 feed) !! i = Some old ∧ id old = id c3
           ∧ merge c3' (merge c3 feed)
             = {| data := <[i := c3']> (data (merge c3 feed));
                  total := total (merge c3 feed) |}.
Proof.
  apply (proj1 (proj2 (merge_idempotent c3 feed)) c3'). reflexivity.
Defined.

(** A new comment lands between the two it lies between, and counts; its
    edit, delivered next, takes its place and does not count. *)
Example feed_after_two_deliveries :
  merge c3 feed = {| data := [c2; c3; c1]; total := 3 |}
  ∧ merge c3' (merge c3 feed) = {| data := [c2; c3'; c1]; total := 3 |}.
Proof. by vm_compute. Qed.

End ActivityStreamFacts.

(** ** More on the delete mutation: frame, composition, the dialog *)
Section DeleteMutationMore.
Import Api QueryCache DeleteMutation BoardsView.
Context {Item : Type}.
Variable item_id : Item → string.
Variable listKey : QueryKey.

Implicit Types (s : Page Item) (d : LimitOffsetPage Item) (l : list Item).
Implicit Types (ss : Session Item).

(** The page a submit leaves, in closed form. *)
Lemma run_onMutate deletedId s :
  run (onMutate item_id listKey deletedId) s
  = match cache (client s) !! listKey with
    | Some (Response200 d h) =>
        on_client (setQueryData listKey (patched item_id deletedId d h))
                  (on_client (cancelQueries listKey) s)
    | _ => on_client (cancelQueries listKey) s
    end.
Proof.
  unfold run.
  destruct (cache (client s) !! listKey) as [[d h|e h]|] eqn:Hc.
  - by rewrite (exec_onMutate_200 _ _ _ _ _ _ Hc).
  - by rewrite (exec_onMutate_422 _ _ _ _ _ _ Hc).
  - by rewrite (exec_onMutate_absent _ _ _ _ Hc).
Qed.


Lemma filter_not_id_comm a b l :
  nextItemsOf item_id b (nextItemsOf item_id a l)
  = nextItemsOf item_id a (nextItemsOf item_id b l).
Proof.
  unfold nextItemsOf. rewrite !list_filter_filter.
  apply list_filter_iff. intros x. tauto.
Qed.

Lemma nextItemsOf_length a l :
  (length (nextItemsOf item_id a l) ≤ length l)%nat.
Proof. apply length_filter. Qed.

Lemma patched_comm a b d h d1 d2 :
  patched item_id a d h = Response200 d1 h →
  patched item_id b d h = Response200 d2 h →
  patched item_id b d1 h = patched item_id a d2 h.
Proof.
  unfold patched. intros [= <-] [= <-].
  cbn -[nextItemsOf Z.max Z.of_nat Z.sub].
  rewrite filter_not_id_comm.
  pose proof (nextItemsOf_length a (items d)).
  pose proof (nextItemsOf_length b (items d)).
  pose proof (nextItemsOf_length a (nextItemsOf item_id b (items d))).
  pose proof (nextItemsOf_length b (nextItemsOf item_id a (items d))) as Hba.
  rewrite filter_not_id_comm in Hba.
  do 2 f_equal. lia.
Qed.

Lemma nextItemsOf_twice a l :
  nextItemsOf item_id a (nextItemsOf item_id a l) = nextItemsOf item_id a l.
Proof.
  unfold nextItemsOf. rewrite list_filter_filter.
  apply list_filter_iff. intros x. tauto.
Qed.

Lemma patched_twice a d h d1 :
  patched item_id a d h = Response200 d1 h →
  patched item_id a d1 h = Response200 d1 h.
Proof.
  unfold patched. intros [= <-].
  cbn -[nextItemsOf Z.max Z.of_nat Z.sub]. rewrite nextItemsOf_twice.
  do 2 f_equal. lia.
Qed.

Lemma gset_difference_twice (X : gset QueryKey) k : X ∖ {[k]} ∖ {[k]} = X ∖ {[k]}.
Proof. apply set_eq. intros x. rewrite !elem_of_difference. tauto. Qed.

(** X2: optimistic deletes compose: submitting the deletes of two ids in
    either order leaves the same page, and submitting the delete of one id
    twice leaves the page of the first submit (the total is lowered once). *)
Theorem optimistic_deletes_commute a b s :
  run (onMutate item_id listKey b) (run (onMutate item_id listKey a) s)
  = run (onMutate item_id listKey a) (run (onMutate item_id listKey b) s)
  ∧ run (onMutate item_id listKey a) (run (onMutate item_id listKey a) s)
    = run (onMutate item_id listKey a) s.
Proof.
  rewrite !(run_onMutate _ (run _ s)), !run_onMutate.
  destruct (cache (client s) !! listKey) as [[d h|e h]|] eqn:Hc; cbn.
  - rewrite !lookup_insert_eq.
    destruct (patched item_id a d h) as [d1 h1|] eqn:Ha; [|done].
    destruct (patched item_id b d h) as [d2 h2|] eqn:Hb; [|done].
    assert (h1 = h) as -> by (unfold patched in Ha; congruence).
    assert (h2 = h) as -> by (unfold patched in Hb; congruence).
    unfold on_client, setQueryData, cancelQueries. cbn.
    rewrite !insert_insert_eq, (patched_comm a b d h d1 d2 Ha Hb).
    rewrite (patched_twice a d h d1 Ha), gset_difference_twice. done.
  - rewrite Hc. unfold on_client, cancelQueries. cbn.
    by rewrite gset_difference_twice.
  - rewrite Hc. unfold on_client, cancelQueries. cbn.
    by rewrite gset_difference_twice.
Qed.

Lemma listed_onMutate deletedId s :
  listed listKey (client (run (onMutate item_id listKey deletedId) s))
  = filter (λ it, item_id it ≠ deletedId) (listed listKey (client s)).
Proof.
  rewrite run_onMutate. unfold listed.
  destruct (cache (client s) !! listKey) as [[d h|e h]|] eqn:Hc; cbn.
  - by rewrite lookup_insert_eq.
  - by rewrite Hc.
  - by rewrite Hc.
Qed.

(** X3: whatever the cache holds for the list (nothing, an error response
    or a page of items), right after a submit the table shows the rows it
    showed before without those of the deleted id: no row with that id is
    left, and no other row is lost or moved. *)
Theorem deleted_row_not_listed deletedId s :
  let rows := listed listKey (client s) in
  let rows' := listed listKey (client (run (onMutate item_id listKey deletedId) s)) in
  rows' = filter (λ it, item_id it ≠ deletedId) rows
  ∧ (∀ it, it ∈ rows' → item_id it ≠ deletedId)
  ∧ (∀ it, it ∈ rows → item_id it ≠ deletedId → it ∈ rows').
Proof.
  cbn zeta. rewrite listed_onMutate. split; [done|]. split.
  - intros it Hit. by apply list_elem_of_filter in Hit as [? _].
  - intros it Hit Hne. by apply list_elem_of_filter.
Qed.

Lemma clickDelete_at_most_one ss :
  (length (outstanding ss) ≤ 1)%nat →
  (length (outstanding (clickDelete item_id listKey ss)) ≤ 1)%nat.
Proof.
  intros Hl. unfold clickDelete, isPending.
  destruct (outstanding ss) as [|m rest] eqn:Ho; [|by rewrite Ho].
  unfold handleDelete. destruct (deleteTarget (page ss)) as [t|].
  - rewrite <- (length_fmap variables), mutate_outstanding, Ho. cbn. lia.
  - rewrite Ho. cbn. lia.
Qed.

Lemma step_at_most_one ss e :
  (length (outstanding ss) ≤ 1)%nat →
  (length (outstanding (step item_id listKey ss e)) ≤ 1)%nat.
Proof.
  intros Hl. destruct e as [row| | |o]; cbn; try done.
  - by apply clickDelete_at_most_one.
  - unfold mutationResolved.
    destruct (outstanding ss) as [|m rest] eqn:Ho; [by rewrite Ho|].
    cbn in *. lia.
Qed.

(** X4: whatever the user does with the dialog and whatever the remote
    calls return, at most one delete is outstanding on a page that started
    with none; and while one is outstanding, pressing Delete in the dialog
    changes nothing. *)
Theorem one_delete_at_a_time ss es :
  outstanding ss = [] →
  let ss' := steps item_id listKey ss es in
  (length (outstanding ss') ≤ 1)%nat
  ∧ (isPending ss' = true → step item_id listKey ss' ConfirmDelete = ss').
Proof.
  intros Ho. cbn zeta. split.
  - assert (Hl : (length (outstanding ss) ≤ 1)%nat) by (rewrite Ho; cbn; lia).
    clear Ho. revert ss Hl. unfold steps.
    induction es as [|e es IH]; intros ss Hl; cbn; [done|].
    apply IH. by apply step_at_most_one.
  - intros Hp. cbn. unfold clickDelete. by rewrite Hp.
Qed.

(** X5: the whole round of a delete.  On a page with a row chosen, a list
    cached and no delete outstanding, pressing Delete and then a failure
    of the remote call leaves the cache as it was and the dialog open on
    the same row; a success leaves the list without the rows of the
    chosen id and closes the dialog.  Either way no delete is outstanding
    and the list is marked stale. *)
Theorem confirm_then_result ss t d h :
  outstanding ss = [] →
  deleteTarget (page ss) = Some t →
  cache (client (page ss)) !! listKey = Some (Response200 d h) →
  let failed := steps item_id listKey ss [ConfirmDelete; RemoteResult Failed] in
  let done := steps item_id listKey ss [ConfirmDelete; RemoteResult Succeeded] in
  cache (client (page failed)) = cache (client (page ss))
  ∧ deleteTarget (page failed) = Some t
  ∧ outstanding failed = []
  ∧ listKey ∈ stale (client (page failed))
  ∧ listed listKey (client (page done))
    = filter (λ it, item_id it ≠ item_id t) (items d)
  ∧ deleteTarget (page done) = None
  ∧ outstanding done = []
  ∧ listKey ∈ stale (client (page done)).
Proof.
  intros Ho Ht Hc. cbn zeta. unfold steps. cbn [foldl step].
  unfold clickDelete, isPending. rewrite Ho.
  unfold handleDelete. rewrite Ht. unfold mutate.
  rewrite (exec_onMutate_200 _ _ _ _ _ _ Hc), Ho.
  unfold mutationResolved. cbn [outstanding app context page].
  unfold run, listed. cbn.
  repeat split.
  - rewrite insert_insert_eq. by apply insert_id.
  - done.
  - apply elem_of_union. right. by apply elem_of_singleton.
  - by rewrite lookup_insert_eq.
  - apply elem_of_union. right. by apply elem_of_singleton.
Qed.

End DeleteMutationMore.

(** ** The group cell of the boards table *)
Section BoardsViewFacts.
Import Api BoardsView.

Lemma length_append (a b : string) :
  String.length (a +:+ b) = (String.length a + String.length b)%nat.
Proof. induction a as [|c a IH]; simpl; [done|]. by rewrite IH. Qed.

Lemma length_substring_0 n (v : string) :
  (n ≤ String.length v)%nat → String.length (String.substring 0 n v) = n.
Proof.
  revert v. induction n as [|n IH]; intros [|c v] Hn; cbn in *; try done; try lia.
  rewrite IH; [done|lia].
Qed.

Lemma substring_0_append n (a b : string) :
  String.length a = n → String.substring 0 n (a +:+ b) = a.
Proof.
  revert a. induction n as [|n IH]; intros [|c a] Hn; simpl in *; try done.
  - by destruct b.
  - rewrite IH; [done|lia].
Qed.

Lemma compactId_short (v : string) :
  (String.length v ≤ 8)%nat → compactId v = v.
Proof.
  intros Hlen. unfold compactId.
  by rewrite (proj2 (Nat.ltb_ge 8 (String.length v)) Hlen).
Qed.

Lemma compactId_long (v : string) :
  (8 < String.length v)%nat →
  compactId v = String.substring 0 8 v +:+ ellipsis.
Proof.
  intros Hlen. unfold compactId.
  by rewrite (proj2 (Nat.ltb_lt 8 (String.length v)) Hlen).
Qed.

(** X6: [compactId] keeps an id of at most eight characters as it is; its
    result is never longer than eight characters and the ellipsis, begins
    like the id, and compacting it again changes nothing. *)
Theorem compactId_bounds (v : string) :
  ((String.length v ≤ 8)%nat → compactId v = v)
  ∧ (String.length (compactId v) ≤ 8 + String.length ellipsis)%nat
  ∧ String.substring 0 8 (compactId v) = String.substring 0 8 v
  ∧ compactId (compactId v) = compactId v.
Proof.
  split; [apply compactId_short|].
  destruct (le_lt_dec (String.length v) 8) as [Hlen|Hlen].
  - rewrite !compactId_short by done. repeat split; lia.
  - assert (Hsub : String.length (String.substring 0 8 v) = 8%nat)
      by (apply length_substring_0; lia).
    rewrite (compactId_long v Hlen).
    rewrite compactId_long by (rewrite length_append, Hsub; cbn; lia).
    rewrite length_append, Hsub, !substring_0_append by done.
    repeat split; done.
Qed.

Lemma compactId_bounds_witness : compactId "b1" = "b1"%string.
Proof. apply (proj1 (compactId_bounds "b1")). simpl. lia. Defined.

Implicit Types (groups : list BoardGroupRead) (m : gmap string BoardGroupRead).

Lemma lookup_set_groups_absent groups m i :
  i ∉ group_id <$> groups →
  foldl (λ m g, <[group_id g := g]> m) m groups !! i = m !! i.
Proof.
  revert m. induction groups as [|g groups IH]; intros m Hn; cbn; [done|].
  rewrite fmap_cons in Hn. apply not_elem_of_cons in Hn as [Hg Hn].
  rewrite IH by done. by rewrite lookup_insert_ne.
Qed.

Lemma lookup_set_groups groups m g :
  NoDup (group_id <$> groups) → g ∈ groups →
  foldl (λ m g, <[group_id g := g]> m) m groups !! group_id g = Some g.
Proof.
  revert m. induction groups as [|x groups IH]; intros m Hnd Hin; cbn.
  - by apply elem_of_nil in Hin.
  - rewrite fmap_cons in Hnd. apply NoDup_cons in Hnd as [Hx Hnd].
    apply elem_of_cons in Hin as [->|Hin].
    + rewrite lookup_set_groups_absent by done. apply lookup_insert_eq.
    + by apply IH.
Qed.

(** X7: the Group cell of a board that has a group id.  When the group is
    among the loaded groups (their ids being unique), the link shows the
    name of that group; when it is not, the link shows the compacted id and
    carries the full id as its title.  The link always leads to the group
    of the board. *)
Theorem group_cell_label groups b i :
  board_group_id b = Some i → i ≠ ""%string →
  (∀ g, NoDup (group_id <$> groups) → g ∈ groups → group_id g = i →
     groupCell (groupById groups) b
     = GroupLink ("/board-groups/" +:+ i) (group_name g) (group_name g))
  ∧ (i ∉ group_id <$> groups →
     groupCell (groupById groups) b
     = GroupLink ("/board-groups/" +:+ i) i (compactId i)).
Proof.
  intros Hb Hi. unfold groupCell, groupById. rewrite Hb, decide_False by done.
  split.
  - intros g Hnd Hin <-. by rewrite lookup_set_groups.
  - intros Hn. by rewrite lookup_set_groups_absent, lookup_empty.
Qed.

End BoardsViewFacts.

(** ** The controls of the kanban page *)
Section KanbanControlsFacts.
Import KanbanPage KanbanControls.

Implicit Types (t : Task) (l : list Task).

Lemma to_int_not_nil (n : Z) :
  Z.to_int n ≠ Decimal.Pos Decimal.Nil ∧ Z.to_int n ≠ Decimal.Neg Decimal.Nil.
Proof.
  pose proof (DecimalZ.to_of (Z.to_int n)) as Hn.
  rewrite DecimalZ.of_to in Hn.
  split; intros Heq; rewrite Heq in Hn; discriminate Hn.
Qed.

Lemma String_of_Z_inj (n m : Z) : String_of_Z n = String_of_Z m → n = m.
Proof.
  unfold String_of_Z. intros Heq.
  destruct (to_int_not_nil n) as [Hn1 Hn2].
  destruct (to_int_not_nil m) as [Hm1 Hm2].
  pose proof (NilZero.isi _ Hn1 Hn2) as Hin.
  pose proof (NilZero.isi _ Hm1 Hm2) as Him.
  rewrite Heq, Him in Hin. apply DecimalZ.to_int_inj. congruence.
Qed.

Lemma String_of_Z_not_empty (n : Z) : String_of_Z n ≠ ""%string.
Proof.
  unfold String_of_Z. intros Heq.
  destruct (to_int_not_nil n) as [Hn1 Hn2].
  pose proof (NilZero.isi _ Hn1 Hn2) as Hin.
  rewrite Heq in Hin. cbn in Hin. congruence.
Qed.

(** X8: the assignee filter.  With no assignee chosen the board shows every
    task; with the employee of id [n] chosen it shows exactly the tasks
    assigned to that employee, in their order, so unassigned tasks are
    hidden; it never shows more tasks than there are. *)
Theorem assignee_filter l :
  filtered "" l = l
  ∧ (∀ n, filtered (String_of_Z n) l
          = filter (λ t, assignee_employee_id t = Some n) l)
  ∧ (∀ a, (length (filtered a l) ≤ length l)%nat).
Proof.
  unfold filtered. split; [|split].
  - induction l as [|t l IH]; [done|].
    rewrite filter_cons, decide_True by tauto. by rewrite IH.
  - intros n. apply list_filter_iff. intros t. unfold assigneeKey.
    pose proof (String_of_Z_not_empty n) as Hne.
    destruct (assignee_employee_id t) as [k|].
    + split.
      * intros Hf. destruct (decide (String_of_Z k = String_of_Z n)) as [He|He].
        -- by rewrite (String_of_Z_inj _ _ He).
        -- exfalso. apply Hf. done.
      * intros [= ->]. tauto.
    + split; [|done]. intros Hf. exfalso. apply Hf. split; [done|].
      intros He. by apply Hne.
  - intros a. apply length_filter.
Qed.

Lemma indexOfFrom_bounds i x (ss : list string) :
  indexOfFrom i x ss = -1 ∨ i ≤ indexOfFrom i x ss < i + Z.of_nat (length ss).
Proof.
  revert i. induction ss as [|y ss IH]; intros i; cbn [indexOfFrom]; [by left|].
  case_decide.
  - right. rewrite length_cons. lia.
  - destruct (IH (i + 1)) as [->|Hb]; [by left|].
    right. rewrite length_cons. lia.
Qed.

(** X9: the arrow button.  From any column the next status exists and is
    one of the six statuses: the column to the right, or the last column
    itself when the card is already there (and the first for a status
    that is none of the six).  No request is sent for a task without an
    id or with id 0, and a request that is sent names the task and a
    status of the board. *)
Theorem quick_move_stays_on_board status :
  (∃ next, nextStatus status = Some next
           ∧ next ∈ STATUSES
           ∧ indexOf next STATUSES = Z.min 5 (indexOf status STATUSES + 1))
  ∧ (∀ t req, quickMove t status = Some req →
       ∃ n next, req = (n, Some next) ∧ id t = Some n ∧ n ≠ 0
                 ∧ next ∈ STATUSES).
Proof.
  assert (Hnext : ∃ next, nextStatus status = Some next
           ∧ next ∈ STATUSES
           ∧ indexOf next STATUSES = Z.min 5 (indexOf status STATUSES + 1)).
  { unfold nextStatus.
    pose proof (indexOfFrom_bounds 0 status STATUSES) as Hb.
    fold (indexOf status STATUSES) in Hb.
    set (idx := indexOf status STATUSES) in *.
    change (Z.of_nat (length STATUSES)) with 6 in *.
    assert (Hcases : idx = -1 ∨ idx = 0 ∨ idx = 1 ∨ idx = 2 ∨ idx = 3
                     ∨ idx = 4 ∨ idx = 5) by lia.
    clearbody idx.
    destruct Hcases as [->|[->|[->|[->|[->|[->| ->]]]]]].
    all: eexists; split; [reflexivity|].
    all: split; [apply (bool_decide_unpack _); by vm_compute|by vm_compute]. }
  split; [done|].
  intros t req. unfold quickMove.
  destruct (id t) as [n|]; [|done].
  destruct (n =? 0) eqn:Hz; [done|]. intros [= <-].
  destruct Hnext as (next & Hn & Hin & _).
  exists n, next. rewrite Hn. repeat split; try done.
  by apply Z.eqb_neq.
Qed.

End KanbanControlsFacts.

(** ** More on the kanban columns: counts and order *)
Section KanbanMore.
Import KanbanPage.
Variable localeCompare : string → string → Z.

Implicit Types (t : Task) (l : list Task).

Lemma filter_in_iff (P Q : Task → Prop)
    `{!∀ x, Decision (P x)} `{!∀ x, Decision (Q x)} l :
  (∀ t, t ∈ l → P t ↔ Q t) → filter P l = filter Q l.
Proof.
  induction l as [|x l IH]; intros Hpq; [done|].
  rewrite !filter_cons.
  rewrite IH by (intros t Ht; apply Hpq; by apply elem_of_cons; right).
  pose proof (Hpq x (list_elem_of_here _ _)) as Hx.
  destruct (decide (P x)), (decide (Q x)); tauto || done.
Qed.

Lemma count_by_key (f : Task → string) (ss : list string) l :
  NoDup ss →
  sum_list ((λ s, length (filter (λ t, f t = s) l)) <$> ss)
  = length (filter (λ t, f t ∈ ss) l).
Proof.
  intros Hnd. induction Hnd as [|s ss Hs Hnd IH]; cbn [fmap list_fmap sum_list].
  - induction l as [|t l IHl]; [done|].
    rewrite filter_cons, decide_False; [done|apply not_elem_of_nil].
  - change (list_fmap _ _ ?g ss) with (g <$> ss). rewrite IH. clear IH.
    unfold Datatypes.id.
    induction l as [|t l IHl]; [done|].
    rewrite !filter_cons.
    destruct (decide (f t = s)) as [<-|Hne].
    + rewrite decide_False by done.
      rewrite decide_True by (apply elem_of_cons; by left).
      rewrite !length_cons. lia.
    + destruct (decide (f t ∈ ss)) as [Hin|Hin].
      * rewrite decide_True by (apply elem_of_cons; by right).
        rewrite !length_cons. lia.
      * rewrite decide_False; [done|].
        intros [?|?]%elem_of_cons; done.
Qed.

(** X10: no task is lost and none is shown twice: the numbers of tasks of
    the six columns of the kanban page add up to the number of tasks
    given to it, whatever their statuses. *)
Theorem every_task_counted_once l :
  sum_list ((λ s, length (column localeCompare l s)) <$> STATUSES) = length l.
Proof.
  rewrite (list_fmap_ext _ (λ s, length (filter (λ t, columnOf t = s) l)))
    by (intros i s _; by rewrite column_perm).
  rewrite count_by_key by apply NoDup_STATUSES.
  f_equal. induction l as [|t l IH]; [done|].
  rewrite filter_cons, decide_True by apply columnOf_status. by rewrite IH.
Qed.

Section Ordered.
(** A comparison that does not put each of two strings after the other. *)
Hypothesis localeCompare_antisym :
  ∀ a b, 0 < localeCompare a b → localeCompare b a ≤ 0.

Let ordered (a b : Task) : Prop := compareFn localeCompare a b ≤ 0.

Lemma insert_sorted_HdRel y x l :
  ordered y x → HdRel ordered y l →
  HdRel ordered y (insert_sorted localeCompare x l).
Proof.
  intros Hyx Hhd. destruct l as [|z l]; cbn; [by constructor|].
  destruct (0 <? compareFn localeCompare z x); constructor; [done|].
  by inversion Hhd.
Qed.

Lemma insert_sorted_Sorted x l :
  Sorted ordered l → Sorted ordered (insert_sorted localeCompare x l).
Proof.
  induction 1 as [|y l Hs IH Hhd]; cbn.
  - repeat constructor.
  - destruct (0 <? compareFn localeCompare y x) eqn:Hc.
    + apply Z.ltb_lt in Hc. constructor; [by constructor|].
      constructor. unfold ordered, compareFn in *.
      by apply localeCompare_antisym.
    + apply Z.ltb_ge in Hc. constructor; [done|].
      by apply insert_sorted_HdRel.
Qed.

Lemma sort_Sorted l : Sorted ordered (sort localeCompare l).
Proof.
  unfold sort.
  enough (∀ acc, Sorted ordered acc →
            Sorted ordered (foldl (λ acc x, insert_sorted localeCompare x acc) acc l))
    as H by (apply H; constructor).
  induction l as [|x l IH]; intros acc Hacc; cbn; [done|].
  apply IH. by apply insert_sorted_Sorted.
Qed.

(** X11: with a comparison of strings that never puts each of two strings
    after the other, the cards of every column of the kanban page are in
    order: no card is followed by one whose [String(id)] compares
    before it. *)
Theorem columns_sorted l s :
  Sorted (λ a b, compareFn localeCompare a b ≤ 0) (column localeCompare l s).
Proof.
  unfold column. rewrite lookup_tasksByStatus.
  case_decide; cbn; [apply sort_Sorted|constructor].
Qed.

End Ordered.

End KanbanMore.

Section KanbanMoreExamples.
Import KanbanPage Samples.

Lemma codeUnitCompare_antisym a b :
  0 < codeUnitCompare a b → codeUnitCompare b a ≤ 0.
Proof.
  unfold codeUnitCompare. rewrite (String.compare_antisym a b).
  destruct (String.compare b a); cbn; lia.
Qed.

Lemma columns_sorted_witness :
  Sorted (λ a b, compareFn codeUnitCompare a b ≤ 0)
         (column codeUnitCompare [kReady; kInbox] "backlog"%string).
Proof.
  apply (columns_sorted codeUnitCompare codeUnitCompare_antisym).
Defined.

End KanbanMoreExamples.

(** ** The project page *)
Section ProjectPageFacts.
Import KanbanPage ProjectPage.

Implicit Types (t : Task) (l : list Task) (m : gmap string (list Task)).

(** The status a task is filed under: [t.status ?? "backlog"]. *)
Local Abbreviation filed t := (default "backlog"%string (status t)).

Lemma lookup_foldl_project_place l m s :
  foldl ProjectPage.place m l !! s
  = (λ arr, arr ++ filter (λ t, filed t = s) l) <$> m !! s.
Proof.
  revert m. induction l as [|t l IH]; intros m; cbn [foldl].
  - rewrite filter_nil. destruct (m !! s); cbn; [by rewrite app_nil_r|done].
  - rewrite IH. unfold ProjectPage.place. rewrite filter_cons.
    destruct (m !! filed t) as [arr|] eqn:Hm.
    + destruct (decide (filed t = s)) as [<-|Hne].
      * rewrite lookup_insert_eq, Hm. cbn. by rewrite <- app_assoc.
      * by rewrite lookup_insert_ne.
    + destruct (decide (filed t = s)) as [<-|Hne]; [by rewrite Hm|done].
Qed.

Lemma lookup_project_tasksByStatus l s :
  ProjectPage.tasksByStatus l !! s
  = if decide (s ∈ ProjectPage.STATUSES)
    then Some (filter (λ t, filed t = s) l) else None.
Proof.
  unfold ProjectPage.tasksByStatus, ProjectPage.emptyColumns.
  rewrite lookup_foldl_project_place, lookup_set_empty, lookup_empty.
  by case_decide.
Qed.

Lemma same_statuses s : s ∈ ProjectPage.STATUSES ↔ s ∈ KanbanPage.STATUSES.
Proof.
  unfold ProjectPage.STATUSES, KanbanPage.STATUSES.
  rewrite !elem_of_cons, !elem_of_nil. tauto.
Qed.

Lemma project_columns_aux l t s :
  filed t ∉ ProjectPage.STATUSES → t ∉ ProjectPage.column l s.
Proof.
  intros Hn. unfold ProjectPage.column.
  rewrite lookup_project_tasksByStatus. case_decide as Hs; cbn.
  - intros [Hf _]%list_elem_of_filter. by rewrite Hf in Hn.
  - apply not_elem_of_nil.
Qed.

(** X12: the columns of the project page.  A column of one of the six
    statuses holds the tasks filed under that status, in the order of the
    task list; a task with any other status is in no column at all (the
    page does not show it). *)
Theorem project_columns l :
  (∀ s, s ∈ ProjectPage.STATUSES →
        ProjectPage.column l s = filter (λ t, filed t = s) l)
  ∧ (∀ t s, filed t ∉ ProjectPage.STATUSES → t ∉ ProjectPage.column l s).
Proof.
  split.
  - intros s Hs. unfold ProjectPage.column.
    by rewrite lookup_project_tasksByStatus, decide_True.
  - intros t s. apply project_columns_aux.
Qed.

(** X13: the kanban page and the project page agree on the tasks whose
    status is one of the six: when every task is such, each column has the
    same tasks on both pages (the kanban page sorts them).  They differ on
    any other status: the kanban page shows such a task under backlog, the
    project page in no column. *)
Theorem pages_agree_on_known_statuses localeCompare l :
  ((∀ t, t ∈ l → filed t ∈ KanbanPage.STATUSES) →
     ∀ s, KanbanPage.column localeCompare l s ≡ₚ ProjectPage.column l s)
  ∧ (∀ t, t ∈ l → filed t ∉ KanbanPage.STATUSES →
       t ∈ KanbanPage.column localeCompare l "backlog"
       ∧ ∀ s, t ∉ ProjectPage.column l s).
Proof.
  split.
  - intros Hall s. rewrite column_perm. unfold ProjectPage.column.
    rewrite lookup_project_tasksByStatus.
    destruct (decide (s ∈ ProjectPage.STATUSES)) as [Hs|Hs]; cbn.
    + rewrite (filter_in_iff (λ t, columnOf t = s) (λ t, filed t = s)); [done|].
      intros t Ht. unfold columnOf. cbn zeta.
      by rewrite decide_True by (by apply Hall).
    + apply Permutation_nil_r.
      induction l as [|t l IH]; [done|].
      rewrite filter_cons, decide_False.
      * apply IH. intros x Hx. apply Hall. by apply elem_of_cons; right.
      * intros <-. apply Hs, same_statuses, columnOf_status.
  - intros t Ht Hn. split.
    + rewrite column_perm. apply list_elem_of_filter. split; [|done].
      unfold columnOf. cbn zeta. by rewrite decide_False.
    + intros s. apply project_columns_aux. by rewrite same_statuses.
Qed.

End ProjectPageFacts.

Section TriggerFacts.
Import KanbanPage ProjectPage.

Implicit Types (e : Employee) (employees : list Employee) (t : Task).

Lemma lookup_set_employees employees (m : gmap Z Employee) n e :
  foldl (λ m e, match employee_id e with
                | Some n => <[n := e]> m
                | None => m
                end) m employees !! n = Some e →
  (e ∈ employees ∧ employee_id e = Some n) ∨ m !! n = Some e.
Proof.
  revert m. induction employees as [|x employees IH]; intros m; cbn [foldl].
  - by right.
  - intros [[Hin He]|Hm]%IH.
    + left. split; [by apply elem_of_cons; right|done].
    + destruct (employee_id x) as [k|] eqn:Hk; [|by right].
      destruct (decide (k = n)) as [->|Hne].
      * rewrite lookup_insert_eq in Hm. injection Hm as ->.
        left. split; [apply list_elem_of_here|done].
      * rewrite lookup_insert_ne in Hm by done. by right.
Qed.

(** X14: the Trigger button of a task is enabled only when the task has an
    id and is assigned to an employee of the list who is an agent with a
    session key; that employee is then also one of the eligible assignees
    offered in the selects. *)
Theorem trigger_only_for_provisioned_agents employees t :
  canTrigger employees t = true →
  ∃ e n, id t ≠ None
         ∧ assignee_employee_id t = Some n
         ∧ employee_id e = Some n
         ∧ e ∈ employees
         ∧ employee_type e = "agent"%string
         ∧ truthy (openclaw_session_key e) = true
         ∧ e ∈ eligibleAssignees employees.
Proof.
  unfold canTrigger, assigneeOf. intros Hc.
  destruct (id t) as [i|]; [|done].
  destruct (assignee_employee_id t) as [n|]; [|done].
  destruct (employeeById employees !! n) as [e|] eqn:He; [|done].
  apply andb_true_iff in Hc as [Hty Hkey]. apply bool_decide_eq_true in Hty.
  apply lookup_set_employees in He as [[Hin Hid]|Hm];
    [|by rewrite lookup_empty in Hm].
  exists e, n. repeat split; try done.
  apply list_elem_of_filter. split; [by right|done].
Qed.

End TriggerFacts.

(** ** The properties above on the sample data *)
Section MoreExamples.
Import Api QueryCache DeleteMutation BoardsView Samples.
Import BoardsPage.


Lemma deleted_row_not_listed_witness :
  b2 ∈ listed boardsKey (client (run (BoardsPage.onMutate "b1") boardsView)).
Proof.
  destruct (deleted_row_not_listed board_id boardsKey "b1" boardsView)
    as (_ & _ & Hkept).
  apply Hkept.
  - change (b2 ∈ [b1; b2]). apply list_elem_of_further, list_elem_of_here.
  - simpl. discriminate.
Defined.

(** Pressing Delete twice and then seeing the call fail leaves nothing
    outstanding beyond one delete at any time. *)
Lemma one_delete_at_a_time_witness :
  (length (outstanding
             (steps board_id boardsKey boardsSession
                [ConfirmDelete; ConfirmDelete; RemoteResult Failed])) ≤ 1)%nat.
Proof.
  apply (one_delete_at_a_time board_id boardsKey boardsSession
           [ConfirmDelete; ConfirmDelete; RemoteResult Failed]).
  reflexivity.
Defined.

Lemma confirm_then_result_witness :
  deleteTarget (page (steps board_id boardsKey boardsSession
                        [ConfirmDelete; RemoteResult Failed])) = Some b1
  ∧ listed boardsKey
      (client (page (steps board_id boardsKey boardsSession
                       [ConfirmDelete; RemoteResult Succeeded])))
    = [b2].
Proof.
  destruct (confirm_then_result board_id boardsKey boardsSession b1 boardsList []
              eq_refl eq_refl eq_refl) as (_ & Hopen & _ & _ & Hrows & _).
  split; [exact Hopen|]. rewrite Hrows. reflexivity.
Defined.

(** The board of the loaded group shows its name; the board of a group
    that is not loaded shows the first eight characters of the id. *)
Lemma group_cell_label_witness :
  groupCell (groupById groupsLoaded) b2
  = GroupLink "/board-groups/g1" "Platform" "Platform"
  ∧ groupCell (groupById groupsLoaded) b3
    = GroupLink "/board-groups/0c1d2e3f-aaaa-bbbb" "0c1d2e3f-aaaa-bbbb"
                (compactId "0c1d2e3f-aaaa-bbbb").
Proof.
  split.
  - apply (proj1 (group_cell_label groupsLoaded b2 "g1" eq_refl
                    ltac:(discriminate)) g1).
    + apply (bool_decide_unpack _). vm_compute. reflexivity.
    + apply list_elem_of_here.
    + reflexivity.
  - apply (proj2 (group_cell_label groupsLoaded b3 "0c1d2e3f-aaaa-bbbb" eq_refl
                    ltac:(discriminate))).
    apply (bool_decide_unpack _). vm_compute. reflexivity.
Defined.

Lemma quick_move_stays_on_board_witness :
  ∃ n next, (1, KanbanControls.nextStatus "review") = (n, Some next)
            ∧ KanbanPage.id (assigned 1 None) = Some n ∧ n ≠ 0
            ∧ next ∈ KanbanPage.STATUSES.
Proof.
  apply (proj2 (quick_move_stays_on_board "review") (assigned 1 None)).
  reflexivity.
Defined.

Lemma project_columns_witness :
  ProjectPage.column [kReady; kInbox] "ready" = [kReady]
  ∧ (kInbox ∉ ProjectPage.column [kReady; kInbox] "backlog").
Proof.
  destruct (project_columns [kReady; kInbox]) as [Hcol Hdrop]. split.
  - rewrite Hcol; [reflexivity|].
    apply (bool_decide_unpack _). vm_compute. reflexivity.
  - apply Hdrop. apply (bool_decide_unpack _). vm_compute. reflexivity.
Defined.

Lemma pages_agree_on_known_statuses_witness :
  kInbox ∈ KanbanPage.column codeUnitCompare [kReady; kInbox] "backlog"
  ∧ ∀ s, kInbox ∉ ProjectPage.column [kReady; kInbox] s.
Proof.
  apply (proj2 (pages_agree_on_known_statuses codeUnitCompare [kReady; kInbox])).
  - apply (bool_decide_unpack _). vm_compute. reflexivity.
  - apply (bool_decide_unpack _). vm_compute. reflexivity.
Defined.

Lemma trigger_only_for_provisioned_agents_witness :
  ∃ e n, KanbanPage.id (assigned 1 (Some 7)) ≠ None
         ∧ KanbanPage.assignee_employee_id (assigned 1 (Some 7)) = Some n
         ∧ ProjectPage.employee_id e = Some n
         ∧ e ∈ [agent7]
         ∧ ProjectPage.employee_type e = "agent"%string
         ∧ ProjectPage.truthy (ProjectPage.openclaw_session_key e) = true
         ∧ e ∈ ProjectPage.eligibleAssignees [agent7].
Proof.
  apply (trigger_only_for_provisioned_agents [agent7] (assigned 1 (Some 7))).
  reflexivity.
Defined.

End MoreExamples.
